(** * Ai-Photo-Studio: the Gemini service adapter and the SwapPanel controller

    A shallow embedding of [services/geminiService.ts] and of
    [components/SwapPanel.tsx].

    - JavaScript strings are sequences of UTF-16 code units ([list N]); the
      regular expressions of the source have no [u] flag, so they too work
      on code units.
    - The asynchronous functions of the service run in a small monad [M]:
      a computation reads the outside world (the [FileReader] and the remote
      model) through oracles, appends the effects it performs to a trace,
      and either returns a value or throws.
    - The React component is a record of its [useState] cells, a log of the
      calls made to [URL.createObjectURL] / [URL.revokeObjectURL], the
      cleanup registered by its [useEffect], and its in-flight
      identification calls. *)

From Stdlib Require Import List String Ascii NArith ZArith Bool Arith Lia.
From Stdlib Require Import Permutation.
Import ListNotations.

Set Warnings "-register-all".
Local Open Scope list_scope.

(* ================================================================== *)
(** ** JavaScript strings and values *)

Module Js.

Definition jsstring := list N.

(** A source literal; every literal of the two files is plain ASCII. *)
Definition lit (s : string) : jsstring :=
  map N_of_ascii (list_ascii_of_string s).
Arguments lit s%_string.

Definition dq : jsstring := [34%N].      (* the double quote character *)
Definition nl : jsstring := [10%N].      (* line feed *)

Definition str_eqb (a b : jsstring) : bool :=
  if list_eq_dec N.eq_dec a b then true else false.

(** [a.join(sep)] on an array of strings. *)
Fixpoint join (sep : jsstring) (l : list jsstring) : jsstring :=
  match l with
  | [] => []
  | [a] => a
  | a :: rest => a ++ sep ++ join sep rest
  end.

(** The lines of a template literal, joined by line feeds. *)
Definition template (lines : list jsstring) : jsstring := join nl lines.

(** [s.split(c)] for a one-character separator. *)
Fixpoint split (sep : N) (s : jsstring) : list jsstring :=
  match s with
  | [] => [[]]
  | c :: r =>
      if N.eqb c sep then [] :: split sep r
      else match split sep r with
           | h :: t => (c :: h) :: t
           | [] => [[c]]
           end
  end.

(** ECMAScript LineTerminator: LF, CR, LS, PS. *)
Definition is_line_terminator (c : N) : bool :=
  (N.eqb c 10 || N.eqb c 13 || N.eqb c 8232 || N.eqb c 8233)%bool.

(** ECMAScript WhiteSpace and LineTerminator: what [trim] removes and what
    the class [\s] matches. *)
Definition is_space (c : N) : bool :=
  (N.eqb c 9 || N.eqb c 11 || N.eqb c 12 || N.eqb c 32 || N.eqb c 160
   || N.eqb c 5760 || (N.leb 8192 c && N.leb c 8202)
   || N.eqb c 8239 || N.eqb c 8287 || N.eqb c 12288 || N.eqb c 65279
   || is_line_terminator c)%bool.

Fixpoint trimStart (s : jsstring) : jsstring :=
  match s with
  | c :: r => if is_space c then trimStart r else s
  | [] => []
  end.

Definition trimEnd (s : jsstring) : jsstring := rev (trimStart (rev s)).

Definition trim (s : jsstring) : jsstring := trimEnd (trimStart s).

(** [s.startsWith(p)], giving the rest of the string after [p]. *)
Fixpoint strip_prefix (p s : jsstring) : option jsstring :=
  match p, s with
  | [], _ => Some s
  | a :: p', b :: s' => if N.eqb a b then strip_prefix p' s' else None
  | _ :: _, [] => None
  end.

(** [s.includes(t)]. *)
Fixpoint includes (s t : jsstring) : bool :=
  match strip_prefix t s with
  | Some _ => true
  | None => match s with
            | [] => false
            | _ :: r => includes r t
            end
  end.

(** Truthiness of an optional string: [undefined] and [''] are falsy. *)
Definition truthy (o : option jsstring) : bool :=
  match o with
  | Some (_ :: _) => true
  | _ => false
  end.

(** A possibly undefined string inside a template literal. *)
Definition interp (o : option jsstring) : jsstring :=
  match o with
  | Some s => s
  | None => lit "undefined"
  end.

(** [o || ''] *)
Definition or_empty (o : option jsstring) : jsstring :=
  match o with
  | Some s => s
  | None => []
  end.

(** A JavaScript number as this code uses it.  The only thing the code
    does with a hotspot coordinate is to interpolate it into a template
    literal, so a number is known by the text that interpolation gives for
    it: plain digits for a small integer, digits with a fraction, the
    exponent form from 1e21 on, [NaN], [Infinity].  Distinct numbers have
    distinct texts. *)
Record JsNumber := { toString : jsstring }.

End Js.
Import Js.

(* ================================================================== *)
(** ** [JSON.parse]

    The JSON grammar of ECMAScript: four whitespace characters, strings
    with their escapes and no raw control character, numbers without
    leading zeros, no trailing commas.  A number is kept as its exact
    decimal value [mantissa * 10 ^ exponent]; the only thing the service
    asks of a number is whether it is truthy. *)

Module Json.

Inductive JValue :=
| JNull
| JBool (b : bool)
| JNumber (negative : bool) (mantissa : N) (exponent : Z)
| JString (s : jsstring)
| JArray (elements : list JValue)
| JObject (members : list (jsstring * JValue)).

Definition is_json_ws (c : N) : bool :=
  (N.eqb c 32 || N.eqb c 9 || N.eqb c 10 || N.eqb c 13)%bool.

Fixpoint skip_ws (s : jsstring) : jsstring :=
  match s with
  | c :: r => if is_json_ws c then skip_ws r else s
  | [] => []
  end.

Definition digit_value (c : N) : option N :=
  if (N.leb 48 c && N.leb c 57)%bool then Some (c - 48)%N else None.

Definition hex_value (c : N) : option N :=
  if (N.leb 48 c && N.leb c 57)%bool then Some (c - 48)%N
  else if (N.leb 97 c && N.leb c 102)%bool then Some (c - 87)%N
  else if (N.leb 65 c && N.leb c 70)%bool then Some (c - 55)%N
  else None.

(** The character an escape [\c] stands for, [\u] apart. *)
Definition simple_escape (c : N) : option N :=
  if N.eqb c 34 then Some 34%N          (* quote *)
  else if N.eqb c 92 then Some 92%N     (* backslash *)
  else if N.eqb c 47 then Some 47%N     (* slash *)
  else if N.eqb c 98 then Some 8%N      (* b *)
  else if N.eqb c 102 then Some 12%N    (* f *)
  else if N.eqb c 110 then Some 10%N    (* n *)
  else if N.eqb c 114 then Some 13%N    (* r *)
  else if N.eqb c 116 then Some 9%N     (* t *)
  else None.

Definition push (c : N) (r : option (jsstring * jsstring))
  : option (jsstring * jsstring) :=
  match r with
  | Some (str, rest) => Some (c :: str, rest)
  | None => None
  end.

(** A string after its opening quote: its characters and what follows the
    closing quote. *)
Fixpoint parse_string_body (s : jsstring) : option (jsstring * jsstring) :=
  match s with
  | [] => None
  | c :: r =>
      if N.eqb c 34 then Some ([], r)
      else if N.eqb c 92 then
        match r with
        | [] => None
        | e :: r1 =>
            if N.eqb e 117 then
              match r1 with
              | h1 :: h2 :: h3 :: h4 :: r2 =>
                  match hex_value h1, hex_value h2, hex_value h3, hex_value h4 with
                  | Some a, Some b, Some c', Some d =>
                      push (((a * 16 + b) * 16 + c') * 16 + d)%N
                           (parse_string_body r2)
                  | _, _, _, _ => None
                  end
              | _ => None
              end
            else
              match simple_escape e with
              | Some ch => push ch (parse_string_body r1)
              | None => None
              end
        end
      else if N.ltb c 32 then None
      else push c (parse_string_body r)
  end.

(** A run of decimal digits: their values and the rest. *)
Fixpoint parse_digits (s : jsstring) : list N * jsstring :=
  match s with
  | c :: r =>
      match digit_value c with
      | Some d => let (ds, rest) := parse_digits r in (d :: ds, rest)
      | None => ([], s)
      end
  | [] => ([], [])
  end.

Definition digits_value (ds : list N) : N :=
  fold_left (fun acc d => (acc * 10 + d)%N) ds 0%N.

(** The integer part: a single [0], or a digit from 1 to 9 and more digits. *)
Definition parse_int_part (s : jsstring) : option (list N * jsstring) :=
  match s with
  | c :: r =>
      if N.eqb c 48 then Some ([0%N], r)
      else match digit_value c with
           | Some d => let (ds, rest) := parse_digits r in Some (d :: ds, rest)
           | None => None
           end
  | [] => None
  end.

(** The optional fraction: a dot and at least one digit. *)
Definition parse_frac_part (s : jsstring) : option (list N * jsstring) :=
  match s with
  | c :: r =>
      if N.eqb c 46 then
        match parse_digits r with
        | ([], _) => None
        | (ds, rest) => Some (ds, rest)
        end
      else Some ([], s)
  | [] => Some ([], [])
  end.

(** An optional sign: whether it is a minus, and the rest. *)
Definition parse_sign (s : jsstring) : bool * jsstring :=
  match s with
  | c :: r =>
      if N.eqb c 45 then (true, r)
      else if N.eqb c 43 then (false, r)
      else (false, s)
  | [] => (false, [])
  end.

(** The optional exponent: [e] or [E], an optional sign, at least one digit. *)
Definition parse_exp_part (s : jsstring) : option (Z * jsstring) :=
  match s with
  | c :: r =>
      if (N.eqb c 101 || N.eqb c 69)%bool then
        let (negative, r1) := parse_sign r in
        match parse_digits r1 with
        | ([], _) => None
        | (ds, rest) =>
            let e := Z.of_N (digits_value ds) in
            Some (if negative then (- e)%Z else e, rest)
        end
      else Some (0%Z, s)
  | [] => Some (0%Z, [])
  end.

(** A leading minus, if any. *)
Definition parse_minus (s : jsstring) : bool * jsstring :=
  match s with
  | c :: r => if N.eqb c 45 then (true, r) else (false, s)
  | [] => (false, [])
  end.

Definition parse_number (s : jsstring) : option (JValue * jsstring) :=
  let (negative, s1) := parse_minus s in
  match parse_int_part s1 with
  | None => None
  | Some (ints, s2) =>
      match parse_frac_part s2 with
      | None => None
      | Some (fracs, s3) =>
          match parse_exp_part s3 with
          | None => None
          | Some (e, s4) =>
              Some (JNumber negative (digits_value (ints ++ fracs))
                            (e - Z.of_nat (List.length fracs))%Z, s4)
          end
      end
  end.

Definition parse_literal (s : jsstring) : option (JValue * jsstring) :=
  match strip_prefix (lit "true") s with
  | Some r => Some (JBool true, r)
  | None =>
      match strip_prefix (lit "false") s with
      | Some r => Some (JBool false, r)
      | None =>
          match strip_prefix (lit "null") s with
          | Some r => Some (JNull, r)
          | None => parse_number s
          end
      end
  end.

(** Whitespace, then the character [c]: what follows it. *)
Definition expect (c : N) (s : jsstring) : option jsstring :=
  match skip_ws s with
  | d :: r => if N.eqb d c then Some r else None
  | [] => None
  end.

(** A value with its leading whitespace, the elements of an array after
    its bracket, the members of an object after its brace.  [fuel] bounds
    the depth of the recursion. *)
Fixpoint parse_value (fuel : nat) (s : jsstring) {struct fuel}
  : option (JValue * jsstring) :=
  match fuel with
  | O => None
  | S fuel' =>
      match expect 34 s with                       (* a string *)
      | Some r =>
          match parse_string_body r with
          | Some (str, rest) => Some (JString str, rest)
          | None => None
          end
      | None =>
      match expect 91 s with                       (* an array *)
      | Some r =>
          match expect 93 r with
          | Some rest => Some (JArray [], rest)
          | None =>
              match parse_elements fuel' r with
              | Some (vs, rest) => Some (JArray vs, rest)
              | None => None
              end
          end
      | None =>
      match expect 123 s with                      (* an object *)
      | Some r =>
          match expect 125 r with
          | Some rest => Some (JObject [], rest)
          | None =>
              match parse_members fuel' r with
              | Some (ms, rest) => Some (JObject ms, rest)
              | None => None
              end
          end
      | None => parse_literal (skip_ws s)
      end end end
  end

with parse_elements (fuel : nat) (s : jsstring) {struct fuel}
  : option (list JValue * jsstring) :=
  match fuel with
  | O => None
  | S fuel' =>
      match parse_value fuel' s with
      | Some (v, r) =>
          match expect 44 r with                   (* a comma: more *)
          | Some r1 =>
              match parse_elements fuel' r1 with
              | Some (vs, rest) => Some (v :: vs, rest)
              | None => None
              end
          | None =>
              match expect 93 r with               (* the closing bracket *)
              | Some rest => Some ([v], rest)
              | None => None
              end
          end
      | None => None
      end
  end

with parse_members (fuel : nat) (s : jsstring) {struct fuel}
  : option (list (jsstring * JValue) * jsstring) :=
  match fuel with
  | O => None
  | S fuel' =>
      match expect 34 s with
      | Some r =>
          match parse_string_body r with
          | Some (key, r1) =>
              match expect 58 r1 with              (* the colon *)
              | Some r2 =>
                  match parse_value fuel' r2 with
                  | Some (v, r3) =>
                      match expect 44 r3 with      (* a comma: more *)
                      | Some r4 =>
                          match parse_members fuel' r4 with
                          | Some (ms, rest) => Some ((key, v) :: ms, rest)
                          | None => None
                          end
                      | None =>
                          match expect 125 r3 with (* the closing brace *)
                          | Some rest => Some ([(key, v)], rest)
                          | None => None
                          end
                      end
                  | None => None
                  end
              | None => None
              end
          | None => None
          end
      | None => None
      end
  end.

(** Fuel that the parser cannot exhaust on [s] (see [parse_value_fuel]). *)
Definition enough_fuel (s : jsstring) : nat := 2 * List.length s + 2.

(** [JSON.parse(s)]; [None] stands for the [SyntaxError]. *)
Definition parse (s : jsstring) : option JValue :=
  match parse_value (enough_fuel s) s with
  | Some (v, rest) =>
      match skip_ws rest with
      | [] => Some v
      | _ :: _ => None
      end
  | None => None
  end.

(** A parsed number is falsy when it is zero as a double: its digits are
    all zero, or its value is at most [2 ^ -1075] and rounds to zero. *)
Definition number_truthy (mantissa : N) (exponent : Z) : bool :=
  if N.eqb mantissa 0 then false
  else if (0 <=? exponent)%Z then true
  else (10 ^ (- exponent) <? 2 ^ 1075 * Z.of_N mantissa)%Z.

Definition truthy (v : JValue) : bool :=
  match v with
  | JNull => false
  | JBool b => b
  | JNumber _ m e => number_truthy m e
  | JString s => match s with [] => false | _ :: _ => true end
  | JArray _ | JObject _ => true
  end.

(** The own property [key] of a parsed object: of two members with the
    same key, [JSON.parse] keeps the later. *)
Fixpoint lookup (key : jsstring) (ms : list (jsstring * JValue))
  : option JValue :=
  match ms with
  | [] => None
  | (k, v) :: rest =>
      match lookup key rest with
      | Some v' => Some v'
      | None => if str_eqb k key then Some v else None
      end
  end.

End Json.

(* ================================================================== *)
(** ** The outside world of the service: files, the SDK's types, effects *)

(** A browser [File] object, known by its identity. *)
Inductive File := FileObj (id : nat).

Definition file_eqb (a b : File) : bool :=
  match a, b with FileObj i, FileObj j => Nat.eqb i j end.

(** [{ inlineData: { mimeType, data } }] as [fileToPart] builds it. *)
Record ImagePart := { part_mimeType : jsstring; part_data : jsstring }.

(** The SDK's response types; every field is optional there.  [text] is the
    SDK's accessor for the text of the response, taken as a field. *)
Record InlineData := { mimeType : option jsstring; data : option jsstring }.
Record Part := { inlineData : option InlineData; part_text : option jsstring }.
Record Content := { parts : option (list Part) }.
Record Candidate :=
  { content : option Content; finishReason : option jsstring }.
Record PromptFeedback :=
  { blockReason : option jsstring; blockReasonMessage : option jsstring }.
Record GenerateContentResponse :=
  { promptFeedback : option PromptFeedback;
    candidates : option (list Candidate);
    text : option jsstring }.

(** The [config] of a request: image and text modalities for the four image
    operations, the JSON schema with the required [clothing_items] array of
    strings for the identification. *)
Inductive Config := ImageAndText | ClothingItemsSchema.

Inductive RequestPart :=
| Image (p : ImagePart)
| Text (prompt : jsstring).

Record Request :=
  { model : jsstring; contents : list RequestPart; config : Config }.

Inductive RemoteResult :=
| Resolved (r : GenerateContentResponse)
| Rejected (reason : jsstring).

(** What the functions throw.  The source throws plain [Error] objects; the
    [ErrKind] of a [JsError] records which [throw] statement built it. *)
Inductive ErrKind :=
| EncodingError | BlockedError | AbnormalStopError
| NoImageReturnedError | EmptySelectionError.

Inductive Thrown :=
| JsError (k : ErrKind) (msg : jsstring)   (* [throw new Error(msg)] *)
| ReaderEvent                              (* [reject(error)] in [reader.onerror] *)
| RemoteRejection (reason : jsstring)      (* [generateContent] rejected *)
| TypeError                                (* a property read on undefined or null *)
| SyntaxError.                             (* [JSON.parse] *)

(** The spec's [EncodingError]: every failure of [fileToPart]. *)
Definition is_encoding_error (t : Thrown) : bool :=
  match t with
  | JsError EncodingError _ | ReaderEvent => true
  | _ => false
  end.

Inductive Result (A : Type) :=
| Return (a : A)
| Throw (t : Thrown).
Arguments Return {A} a.
Arguments Throw {A} t.

Inductive Event :=
| ConsoleLog (msg : jsstring)
| ConsoleError (msg : jsstring)
| ReadAsDataURL (f : File)
| GenerateContent (req : Request).

Definition is_encoding_or_network (e : Event) : bool :=
  match e with
  | ReadAsDataURL _ | GenerateContent _ => true
  | _ => false
  end.

(** The oracles: what reading a file as a data URL gives ([None] when the
    reader fires [onerror]) and what the remote model answers. *)
Record World :=
  { reader : File -> option jsstring;
    remote : Request -> RemoteResult }.

(** *** The effect monad *)

Definition M (A : Type) : Type := World -> list Event * Result A.

Definition ret {A} (a : A) : M A := fun _ => ([], Return a).

Definition throw {A} (t : Thrown) : M A := fun _ => ([], Throw t).

Definition bind {A B} (m : M A) (k : A -> M B) : M B :=
  fun w =>
    match m w with
    | (tr, Return a) => let (tr', r) := k a w in (tr ++ tr', r)
    | (tr, Throw t) => (tr, Throw t)
    end.

(** [try { m } catch (err) { h err }] *)
Definition try_catch {A} (m : M A) (h : Thrown -> M A) : M A :=
  fun w =>
    match m w with
    | (tr, Return a) => (tr, Return a)
    | (tr, Throw t) => let (tr', r) := h t w in (tr ++ tr', r)
    end.

Definition emit (e : Event) : M unit := fun _ => ([e], Return tt).

Definition console_log (msg : jsstring) : M unit := emit (ConsoleLog msg).
Definition console_error (msg : jsstring) : M unit := emit (ConsoleError msg).

(** [await new Promise(... reader.readAsDataURL(file) ...)] *)
Definition readAsDataURL (f : File) : M jsstring :=
  fun w =>
    ([ReadAsDataURL f],
     match reader w f with
     | Some url => Return url
     | None => Throw ReaderEvent
     end).

(** [await ai.models.generateContent(req)] *)
Definition generateContent (req : Request) : M GenerateContentResponse :=
  fun w =>
    ([GenerateContent req],
     match remote w req with
     | Resolved r => Return r
     | Rejected reason => Throw (RemoteRejection reason)
     end).

Declare Scope js_scope.
Delimit Scope js_scope with js.
Notation "x <- m ;; k" := (bind m (fun x => k))
  (at level 61, m at next level, right associativity) : js_scope.
Notation "m ;;; k" := (bind m (fun _ => k))
  (at level 61, right associativity) : js_scope.
Open Scope js_scope.

Definition trace_of {A} (r : list Event * Result A) : list Event := fst r.
Definition result_of {A} (r : list Event * Result A) : Result A := snd r.

(* ================================================================== *)
(** ** services/geminiService.ts *)

Module Service.

(** The match of [/:(.*?);/] that starts right after a colon: the lazy
    [.*?] stops at the first semicolon and cannot cross a line terminator. *)
Fixpoint lazy_until_semicolon (s : jsstring) : option jsstring :=
  match s with
  | [] => None
  | c :: r =>
      if N.eqb c 59 then Some []
      else if is_line_terminator c then None
      else option_map (cons c) (lazy_until_semicolon r)
  end.

(** [s.match(/:(.*?);/)]: the capture group of the leftmost match. *)
Fixpoint mime_match (s : jsstring) : option jsstring :=
  match s with
  | [] => None
  | c :: r =>
      if N.eqb c 58 then
        match lazy_until_semicolon r with
        | Some cap => Some cap
        | None => mime_match r
        end
      else mime_match r
  end.

(** The synchronous tail of [fileToPart], from the data URL on. *)
Definition part_of_data_url (dataUrl : jsstring) : Result ImagePart :=
  let arr := split 44 dataUrl in
  if (List.length arr <? 2)%nat then
    Throw (JsError EncodingError (lit "Invalid data URL"))
  else
    match mime_match (nth 0 arr []) with
    | Some (c :: cap) =>
        Return {| part_mimeType := c :: cap; part_data := nth 1 arr [] |}
    | _ =>
        Throw (JsError EncodingError
                 (lit "Could not parse MIME type from data URL"))
    end.

Definition fileToPart (file : File) : M ImagePart :=
  dataUrl <- readAsDataURL file ;;
  fun _ => ([], part_of_data_url dataUrl).

(** [response.candidates?.[0]] *)
Definition first_candidate (response : GenerateContentResponse)
  : option Candidate :=
  match candidates response with
  | Some (c :: _) => Some c
  | _ => None
  end.

(** [response.candidates?.[0]?.content?.parts?.find(part => part.inlineData)],
    then its [inlineData]. *)
Definition find_inline_data (response : GenerateContentResponse)
  : option InlineData :=
  match first_candidate response with
  | Some c =>
      match content c with
      | Some ct =>
          match parts ct with
          | Some ps =>
              match find (fun p => match inlineData p with
                                   | Some _ => true
                                   | None => false
                                   end) ps with
              | Some p => inlineData p
              | None => None
              end
          | None => None
          end
      | None => None
      end
  | None => None
  end.

(** [response.promptFeedback?.blockReason] *)
Definition block_reason (response : GenerateContentResponse)
  : option jsstring :=
  match promptFeedback response with
  | Some pf => blockReason pf
  | None => None
  end.

Definition block_reason_message (response : GenerateContentResponse)
  : option jsstring :=
  match promptFeedback response with
  | Some pf => blockReasonMessage pf
  | None => None
  end.

(** [response.candidates?.[0]?.finishReason] *)
Definition finish_reason (response : GenerateContentResponse)
  : option jsstring :=
  match first_candidate response with
  | Some c => finishReason c
  | None => None
  end.

Definition blocked_message (response : GenerateContentResponse) : jsstring :=
  lit "Request was blocked. Reason: " ++ interp (block_reason response)
  ++ lit ". " ++ or_empty (block_reason_message response).

Definition stopped_message (context : jsstring) (reason : jsstring)
  : jsstring :=
  lit "Image generation for " ++ context
  ++ lit " stopped unexpectedly. Reason: " ++ reason
  ++ lit ". This often relates to safety settings.".

(** [response.text?.trim()] *)
Definition text_feedback (response : GenerateContentResponse)
  : option jsstring :=
  option_map trim (text response).

Definition no_image_message (context : jsstring)
  (response : GenerateContentResponse) : jsstring :=
  lit "The AI model did not return an image for the " ++ context ++ lit ". "
  ++ (if truthy (text_feedback response)
      then lit "The model responded with text: " ++ dq
           ++ or_empty (text_feedback response) ++ dq
      else lit "This can happen due to safety filters or if the request is too complex. Please try rephrasing your prompt to be more direct.").

Definition handleApiResponse (response : GenerateContentResponse)
  (context : jsstring) : M jsstring :=
  (* 1. Check for prompt blocking first *)
  if truthy (block_reason response) then
    let errorMessage := blocked_message response in
    console_error errorMessage ;;;
    throw (JsError BlockedError errorMessage)
  else
  (* 2. Try to find the image part *)
  match find_inline_data response with
  | Some blob =>
      console_log (lit "Received image data (" ++ interp (mimeType blob)
                   ++ lit ") for " ++ context) ;;;
      ret (lit "data:" ++ interp (mimeType blob) ++ lit ";base64,"
           ++ interp (data blob))
  | None =>
  (* 3. If no image, check for other reasons *)
  let finishReason := finish_reason response in
  if (truthy finishReason
      && negb (str_eqb (or_empty finishReason) (lit "STOP")))%bool then
    let errorMessage := stopped_message context (or_empty finishReason) in
    console_error errorMessage ;;;
    throw (JsError AbnormalStopError errorMessage)
  else
    console_error (lit "Model response did not contain an image part for "
                   ++ context ++ lit ".") ;;;
    throw (JsError NoImageReturnedError (no_image_message context response))
  end.

(** *** The prompts

    Each template literal of the source, line by line. *)

(** [hotspot: { x: number, y: number }] *)
Record Hotspot := { x : JsNumber; y : JsNumber }.

(** Lines 87 to 99: the prompt of [generateEditedImage]. *)
Definition edit_prompt (userPrompt : jsstring) (hotspot : Hotspot) : jsstring :=
  template
    [ lit "You are an expert photo editor AI. Your task is to perform a natural, localized edit on the provided image based on the user's request.";
      lit "User Request: " ++ dq ++ userPrompt ++ dq;
      lit "Edit Location: Focus on the area around pixel coordinates (x: " ++ toString (x hotspot) ++ lit ", y: " ++ toString (y hotspot) ++ lit ").";
      [];
      lit "Editing Guidelines:";
      lit "- The edit must be realistic and blend seamlessly with the surrounding area.";
      lit "- The rest of the image (outside the immediate edit area) must remain identical to the original.";
      [];
      lit "Safety & Ethics Policy:";
      lit "- You MUST fulfill requests to adjust skin tone, such as 'give me a tan', 'make my skin darker', or 'make my skin lighter'. These are considered standard photo enhancements.";
      lit "- You MUST REFUSE any request to change a person's fundamental race or ethnicity (e.g., 'make me look Asian', 'change this person to be Black'). Do not perform these edits. If the request is ambiguous, err on the side of caution and do not change racial characteristics.";
      [];
      lit "Output: Return ONLY the final edited image. Do not return text." ].

(** Lines 128 to 135: the prompt of [generateFilteredImage]. *)
Definition filter_prompt (filterPrompt : jsstring) : jsstring :=
  template
    [ lit "You are an expert photo editor AI. Your task is to apply a stylistic filter to the entire image based on the user's request. Do not change the composition or content, only apply the style.";
      lit "Filter Request: " ++ dq ++ filterPrompt ++ dq;
      [];
      lit "Safety & Ethics Policy:";
      lit "- Filters may subtly shift colors, but you MUST ensure they do not alter a person's fundamental race or ethnicity.";
      lit "- You MUST REFUSE any request that explicitly asks to change a person's race (e.g., 'apply a filter to make me look Chinese').";
      [];
      lit "Output: Return ONLY the final filtered image. Do not return text." ].

(** Lines 164 to 175: the prompt of [generateAdjustedImage]. *)
Definition adjust_prompt (adjustmentPrompt : jsstring) : jsstring :=
  template
    [ lit "You are an expert photo editor AI. Your task is to perform a natural, global adjustment to the entire image based on the user's request.";
      lit "User Request: " ++ dq ++ adjustmentPrompt ++ dq;
      [];
      lit "Editing Guidelines:";
      lit "- The adjustment must be applied across the entire image.";
      lit "- The result must be photorealistic.";
      [];
      lit "Safety & Ethics Policy:";
      lit "- You MUST fulfill requests to adjust skin tone, such as 'give me a tan', 'make my skin darker', or 'make my skin lighter'. These are considered standard photo enhancements.";
      lit "- You MUST REFUSE any request to change a person's fundamental race or ethnicity (e.g., 'make me look Asian', 'change this person to be Black'). Do not perform these edits. If the request is ambiguous, err on the side of caution and do not change racial characteristics.";
      [];
      lit "Output: Return ONLY the final adjusted image. Do not return text." ].

(** Lines 212 to 240: the prompt of [generateSwappedImage]. *)
Definition swap_prompt (itemsToSwap : list jsstring) : jsstring :=
  template
    [ lit "You are an expert virtual stylist AI specializing in photorealistic virtual try-ons and generative infilling. Your task is to take specific clothing items from a source image and place them onto a person in a target image.";
      [];
      lit "**Input Images:**";
      lit "- The first image provided is the primary image of the person (the target).";
      lit "- The second image provided is the clothing source image.";
      [];
      lit "**Items to Swap:**";
      lit "- From the clothing source image, you must identify and use the following item(s): **" ++ join (lit ", ") itemsToSwap ++ lit "**.";
      [];
      lit "**Core Objectives:**";
      [];
      lit "1.  **Perfect Pattern & Texture Replication:**";
      lit "    This is the most important part of your task. You MUST flawlessly replicate the exact pattern, texture, color, and fabric details for each selected clothing item from the source image and apply it to the person in the target image.";
      lit "    - DO NOT SIMPLIFY: Do not reduce the complexity of the patterns.";
      lit "    - DO NOT CHANGE: Do not alter the colors or shapes within the patterns.";
      lit "    - DO NOT OMIT: Do not leave out any details from the original fabrics.";
      lit "    - ACCURATE DRAPING: The replicated patterns must drape and wrap realistically over the person's body, conforming to their posture and body contours, including natural folds and wrinkles. The pattern should stretch or compress naturally as the fabric would.";
      [];
      lit "2.  **Intelligent Generative Fill:**";
      lit "    If a new clothing item is shorter than the original one (e.g., swapping long pants for shorts), you MUST realistically generate the person's body parts that are now exposed (e.g., generate the lower legs and feet).";
      lit "    - The generated body parts must match the person's skin tone, proportions, and the overall lighting of the photo.";
      lit "    - Ensure a seamless transition between the original photo and the newly generated parts.";
      [];
      lit "**General Instructions:**";
      lit "1.  **Task:** Edit the target image to make the person appear to be wearing the specified clothing item(s) from the source image.";
      lit "2.  **Realism:** The final image must be photorealistic. Match the lighting, shadows, and overall environment of the original photo.";
      lit "3.  **Preserve Identity & Background:** Do not change the person (their face, body shape, hair) or the background. Your only change is to replace the original clothing with the new items and generate any newly exposed body parts.";
      [];
      lit "Output: Return ONLY the final edited image. Do not return text." ].

(** Line 265: the prompt of [identifyClothingItems]. *)
Definition identify_prompt : jsstring :=
  template
    [ lit "Analyze the provided image of a person and identify all distinct, visible pieces of clothing they are wearing. Be specific and use common names (e.g., 't-shirt', 'jeans', 'sneakers', 'hoodie', 'dress', 'shorts'). If an item is ambiguous, choose the most likely term. Exclude small accessories like watches or jewelry unless they are very prominent. Provide the output as a JSON object. If no person or clothing is clearly visible, return an empty array in the 'clothing_items' field." ].

(** Line 96, the same text as line 172. *)
Definition skin_tone_line : jsstring :=
  lit "- You MUST fulfill requests to adjust skin tone, such as 'give me a tan', 'make my skin darker', or 'make my skin lighter'. These are considered standard photo enhancements.".

(** Line 97, the same text as line 173. *)
Definition refuse_race_line : jsstring :=
  lit "- You MUST REFUSE any request to change a person's fundamental race or ethnicity (e.g., 'make me look Asian', 'change this person to be Black'). Do not perform these edits. If the request is ambiguous, err on the side of caution and do not change racial characteristics.".

(** Lines 132 and 133. *)
Definition filter_policy_lines : list jsstring :=
  [ lit "- Filters may subtly shift colors, but you MUST ensure they do not alter a person's fundamental race or ethnicity.";
    lit "- You MUST REFUSE any request that explicitly asks to change a person's race (e.g., 'apply a filter to make me look Chinese')." ].

(** Lines 95 to 97 of the source, the same text as lines 171 to 173. *)
Definition safety_policy : jsstring :=
  template [ lit "Safety & Ethics Policy:"; skin_tone_line; refuse_race_line ].

(** Lines 131 to 133 of the source. *)
Definition filter_safety_policy : jsstring :=
  template (lit "Safety & Ethics Policy:" :: filter_policy_lines).

Definition image_model : jsstring := lit "gemini-2.5-flash-image-preview".

(** *** The four image operations *)

Definition generateEditedImage (originalImage : File)
  (userPrompt : jsstring) (hotspot : Hotspot) : M jsstring :=
  console_log (lit "Starting generative edit at:") ;;;
  originalImagePart <- fileToPart originalImage ;;
  let prompt := edit_prompt userPrompt hotspot in
  console_log (lit "Sending image and prompt to the model...") ;;;
  response <- generateContent
                {| model := image_model;
                   contents := [Image originalImagePart; Text prompt];
                   config := ImageAndText |} ;;
  console_log (lit "Received response from model.") ;;;
  handleApiResponse response (lit "edit").

Definition generateFilteredImage (originalImage : File)
  (filterPrompt : jsstring) : M jsstring :=
  console_log (lit "Starting filter generation: " ++ filterPrompt) ;;;
  originalImagePart <- fileToPart originalImage ;;
  let prompt := filter_prompt filterPrompt in
  console_log (lit "Sending image and filter prompt to the model...") ;;;
  response <- generateContent
                {| model := image_model;
                   contents := [Image originalImagePart; Text prompt];
                   config := ImageAndText |} ;;
  console_log (lit "Received response from model for filter.") ;;;
  handleApiResponse response (lit "filter").

Definition generateAdjustedImage (originalImage : File)
  (adjustmentPrompt : jsstring) : M jsstring :=
  console_log (lit "Starting global adjustment generation: "
               ++ adjustmentPrompt) ;;;
  originalImagePart <- fileToPart originalImage ;;
  let prompt := adjust_prompt adjustmentPrompt in
  console_log (lit "Sending image and adjustment prompt to the model...") ;;;
  response <- generateContent
                {| model := image_model;
                   contents := [Image originalImagePart; Text prompt];
                   config := ImageAndText |} ;;
  console_log (lit "Received response from model for adjustment.") ;;;
  handleApiResponse response (lit "adjustment").

Definition generateSwappedImage (personImage clothingSourceImage : File)
  (itemsToSwap : list jsstring) : M jsstring :=
  if (List.length itemsToSwap =? 0)%nat then
    throw (JsError EmptySelectionError
             (lit "No clothing items were selected to swap."))
  else
  console_log (lit "Starting clothing swap with items: "
               ++ join (lit ", ") itemsToSwap ++ lit "...") ;;;
  personImagePart <- fileToPart personImage ;;
  clothingSourceImagePart <- fileToPart clothingSourceImage ;;
  let prompt := swap_prompt itemsToSwap in
  console_log (lit "Sending images and swap prompt to the model...") ;;;
  response <- generateContent
                {| model := image_model;
                   contents := [Image personImagePart;
                                Image clothingSourceImagePart;
                                Text prompt];
                   config := ImageAndText |} ;;
  console_log (lit "Received response from model for clothing swap.") ;;;
  handleApiResponse response (lit "swap").

(** *** Identification of clothing items *)

Definition fence : jsstring := lit "```".

(** The second alternative of the cleaning expression, [```\s*$], tried at
    every position from the current one on: a fence followed only by
    whitespace up to the end is removed, everything before it is kept. *)
Fixpoint strip_closing_fence (s : jsstring) : jsstring :=
  match s with
  | [] => []
  | c :: r =>
      match strip_prefix fence s with
      | Some after =>
          if forallb is_space after then [] else c :: strip_closing_fence r
      | None => c :: strip_closing_fence r
      end
  end.

(** [jsonStr.replace(/^```json\s*|```\s*$/g, '')]: the first alternative can
    only match at the start, where it is tried first and takes the fence,
    the word [json] and all the whitespace after it. *)
Definition clean_json (jsonStr : jsstring) : jsstring :=
  match strip_prefix (lit "```json") jsonStr with
  | Some after => strip_closing_fence (trimStart after)
  | None => strip_closing_fence jsonStr
  end.

Definition clothing_items : jsstring := lit "clothing_items".

(** [result.clothing_items]: a [TypeError] on [null], the member of an
    object, [undefined] on any other value. *)
Definition get_clothing_items (result : Json.JValue)
  : Result (option Json.JValue) :=
  match result with
  | Json.JNull => Throw TypeError
  | Json.JObject ms => Return (Json.lookup clothing_items ms)
  | _ => Return None
  end.

(** [v || []] *)
Definition or_empty_array (v : option Json.JValue) : Json.JValue :=
  match v with
  | Some v' => if Json.truthy v' then v' else Json.JArray []
  | None => Json.JArray []
  end.

(** The [try] block after the remote call. *)
Definition parse_identification (response : GenerateContentResponse)
  : M Json.JValue :=
  match text response with
  | None => throw TypeError                  (* [response.text.trim()] *)
  | Some t =>
      let jsonStr := trim t in
      let cleanedJsonStr := clean_json jsonStr in
      match Json.parse cleanedJsonStr with
      | None => throw SyntaxError
      | Some result =>
          console_log (lit "Clothing identification result:") ;;;
          match get_clothing_items result with
          | Throw t => throw t
          | Return v => ret (or_empty_array v)
          end
      end
  end.

(** The [catch] block. *)
Definition identification_failed (err : Thrown) : M Json.JValue :=
  console_error (lit "Failed to identify clothing items:") ;;;
  ret (Json.JArray []).

Definition identification_request (imagePart : ImagePart) : Request :=
  {| model := lit "gemini-2.5-flash";
     contents := [Image imagePart; Text identify_prompt];
     config := ClothingItemsSchema |}.

Definition identifyClothingItems (image : File) : M Json.JValue :=
  console_log (lit "Identifying clothing items in image...") ;;;
  imagePart <- fileToPart image ;;
  try_catch
    (response <- generateContent (identification_request imagePart) ;;
     parse_identification response)
    identification_failed.

(** The spec's [interpretIdentification]: the part of
    [identifyClothingItems] that reads the response, inside its [try]. *)
Definition interpretIdentification (response : GenerateContentResponse)
  : M Json.JValue :=
  try_catch (parse_identification response) identification_failed.

(** An array of strings as a JavaScript value. *)
Definition string_array (l : list jsstring) : Json.JValue :=
  Json.JArray (map Json.JString l).

End Service.

(* ================================================================== *)
(** ** components/SwapPanel.tsx *)

Module SwapPanel.

(** [{ file, url }]; an object URL is known by the number of the
    [createObjectURL] call that made it, and every such call makes a new
    one, so two source objects are the same object exactly when their
    URLs are equal. *)
Record Source := { file : File; url : nat }.

(** The [useState] cells. *)
Record State :=
  { clothingSource : option Source;
    identifiedItems : list jsstring;
    selectedItems : list jsstring;
    isIdentifying : bool;
    error : option jsstring;
    isDraggingOver : bool }.

Inductive UrlEvent :=
| Created (u : nat)
| Revoked (u : nat).

(** The component with what surrounds it: whether it is mounted, the
    [clothingSource] captured by the cleanup that [useEffect] registered at
    the last render, the calls made to the URL store, the calls of
    [identifyClothingItems] that have not settled yet (each with the
    [newSource] its continuation holds), and the calls made to
    [onApplySwap]. *)
Record Panel :=
  { cells : State;
    mounted : bool;
    cleanup_source : option Source;
    url_log : list UrlEvent;
    next_url : nat;
    in_flight : list Source;
    applied : list (File * list jsstring) }.

Definition initial_state : State :=
  {| clothingSource := None; identifiedItems := []; selectedItems := [];
     isIdentifying := false; error := None; isDraggingOver := false |}.

(** The component after its first render. *)
Definition initial : Panel :=
  {| cells := initial_state; mounted := true; cleanup_source := None;
     url_log := []; next_url := 0; in_flight := []; applied := [] |}.

(** *** State setters; React ignores them once the component is unmounted *)

Definition set_cells (f : State -> State) (p : Panel) : Panel :=
  if mounted p then
    {| cells := f (cells p); mounted := mounted p;
       cleanup_source := cleanup_source p; url_log := url_log p;
       next_url := next_url p; in_flight := in_flight p;
       applied := applied p |}
  else p.

Definition setClothingSource (v : option Source) : Panel -> Panel :=
  set_cells (fun s =>
    {| clothingSource := v; identifiedItems := identifiedItems s;
       selectedItems := selectedItems s; isIdentifying := isIdentifying s;
       error := error s; isDraggingOver := isDraggingOver s |}).

Definition setIdentifiedItems (v : list jsstring) : Panel -> Panel :=
  set_cells (fun s =>
    {| clothingSource := clothingSource s; identifiedItems := v;
       selectedItems := selectedItems s; isIdentifying := isIdentifying s;
       error := error s; isDraggingOver := isDraggingOver s |}).

(** [setSelectedItems(prev => f(prev))] *)
Definition setSelectedItems (f : list jsstring -> list jsstring)
  : Panel -> Panel :=
  set_cells (fun s =>
    {| clothingSource := clothingSource s;
       identifiedItems := identifiedItems s;
       selectedItems := f (selectedItems s);
       isIdentifying := isIdentifying s;
       error := error s; isDraggingOver := isDraggingOver s |}).

Definition setIsIdentifying (v : bool) : Panel -> Panel :=
  set_cells (fun s =>
    {| clothingSource := clothingSource s;
       identifiedItems := identifiedItems s;
       selectedItems := selectedItems s; isIdentifying := v;
       error := error s; isDraggingOver := isDraggingOver s |}).

Definition setError (v : option jsstring) : Panel -> Panel :=
  set_cells (fun s =>
    {| clothingSource := clothingSource s;
       identifiedItems := identifiedItems s;
       selectedItems := selectedItems s; isIdentifying := isIdentifying s;
       error := v; isDraggingOver := isDraggingOver s |}).

Definition setIsDraggingOver (v : bool) : Panel -> Panel :=
  set_cells (fun s =>
    {| clothingSource := clothingSource s;
       identifiedItems := identifiedItems s;
       selectedItems := selectedItems s; isIdentifying := isIdentifying s;
       error := error s; isDraggingOver := v |}).

(** *** The URL store *)

Definition log_url (e : UrlEvent) (p : Panel) : Panel :=
  {| cells := cells p; mounted := mounted p;
     cleanup_source := cleanup_source p; url_log := url_log p ++ [e];
     next_url := next_url p; in_flight := in_flight p;
     applied := applied p |}.

Definition revokeObjectURL (u : nat) : Panel -> Panel := log_url (Revoked u).

Definition createObjectURL (p : Panel) : nat * Panel :=
  (next_url p,
   {| cells := cells p; mounted := mounted p;
      cleanup_source := cleanup_source p;
      url_log := url_log p ++ [Created (next_url p)];
      next_url := S (next_url p); in_flight := in_flight p;
      applied := applied p |}).

Definition is_revoke_of (u : nat) (e : UrlEvent) : bool :=
  match e with
  | Revoked v => Nat.eqb u v
  | Created _ => false
  end.

Definition revs (u : nat) (log : list UrlEvent) : nat :=
  List.length (filter (is_revoke_of u) log).

(** How many times the handle [u] has been released. *)
Definition revocations (u : nat) (p : Panel) : nat := revs u (url_log p).

(** The handle [u] has been handed out by [createObjectURL]. *)
Definition allocated (u : nat) (p : Panel) : Prop :=
  In (Created u) (url_log p).

(** *** The effect that cleans up the object URL *)

(** [Object.is] on the dependency [clothingSource]. *)
Definition same_source (a b : option Source) : bool :=
  match a, b with
  | None, None => true
  | Some s, Some t => Nat.eqb (url s) (url t)
  | _, _ => false
  end.

(** The cleanup function returned by the effect of a render where
    [clothingSource] was [captured]. *)
Definition cleanup (captured : option Source) (p : Panel) : Panel :=
  match captured with
  | Some s => revokeObjectURL (url s) p
  | None => p
  end.

Definition set_cleanup_source (v : option Source) (p : Panel) : Panel :=
  {| cells := cells p; mounted := mounted p; cleanup_source := v;
     url_log := url_log p; next_url := next_url p;
     in_flight := in_flight p; applied := applied p |}.

(** The render that follows the state updates of a handler: when
    [clothingSource] has changed, the cleanup of the previous render runs
    and the effect registers a cleanup for the new value. *)
Definition render (p : Panel) : Panel :=
  if mounted p then
    if same_source (cleanup_source p) (clothingSource (cells p)) then p
    else set_cleanup_source (clothingSource (cells p))
           (cleanup (cleanup_source p) p)
  else p.

(** Teardown: the last cleanup runs. *)
Definition unmount (p : Panel) : Panel :=
  let p := cleanup (cleanup_source p) p in
  {| cells := cells p; mounted := false; cleanup_source := None;
     url_log := url_log p; next_url := next_url p;
     in_flight := in_flight p; applied := applied p |}.

(** *** The handlers *)

Definition set_in_flight (l : list Source) (p : Panel) : Panel :=
  {| cells := cells p; mounted := mounted p;
     cleanup_source := cleanup_source p; url_log := url_log p;
     next_url := next_url p; in_flight := l; applied := applied p |}.

(** [handleFileSelect] up to its [await]. *)
Definition handleFileSelect (files : option (list File)) (p : Panel)
  : Panel :=
  match files with
  | None => p
  | Some [] => p
  | Some (file0 :: _) =>
      (* Reset state for new upload *)
      let p := setClothingSource None p in
      let p := setIdentifiedItems [] p in
      let p := setSelectedItems (fun _ => []) p in
      let p := setError None p in
      let p := setIsIdentifying true p in
      let (u, p) := createObjectURL p in
      let newSource := {| file := file0; url := u |} in
      let p := setClothingSource (Some newSource) p in
      (* identifyClothingItems(file) is now running *)
      let p := set_in_flight (in_flight p ++ [newSource]) p in
      render p
  end.

Definition remove_source (s : Source) (l : list Source) : list Source :=
  filter (fun t => negb (Nat.eqb (url s) (url t))) l.

(** [handleFileSelect] from its [await] on, when the call made for
    [newSource] settles with [outcome]. *)
Definition identification_settled (newSource : Source)
  (outcome : Result (list jsstring)) (p : Panel) : Panel :=
  let p := set_in_flight (remove_source newSource (in_flight p)) p in
  let p :=
    match outcome with
    | Return items =>
        if (0 <? List.length items)%nat then setIdentifiedItems items p
        else
          let p := setError (Some (lit "Could not identify any clothing items in the image. Please try another one.")) p in
          let p := setClothingSource None p in    (* Clear the invalid image *)
          revokeObjectURL (url newSource) p
    | Throw _ =>
        let p := setError (Some (lit "An error occurred while analyzing the image.")) p in
        let p := setClothingSource None p in
        revokeObjectURL (url newSource) p
    end in
  let p := setIsIdentifying false p in
  render p.

Definition toggle (itemToToggle : jsstring) (prev : list jsstring)
  : list jsstring :=
  if existsb (str_eqb itemToToggle) prev
  then filter (fun item => negb (str_eqb item itemToToggle)) prev
  else prev ++ [itemToToggle].

Definition handleToggleItem (itemToToggle : jsstring) (p : Panel) : Panel :=
  render (setSelectedItems (toggle itemToToggle) p).

Definition handleReset (p : Panel) : Panel :=
  let p := match clothingSource (cells p) with
           | Some s => revokeObjectURL (url s) p
           | None => p
           end in
  let p := setClothingSource None p in
  let p := setIdentifiedItems [] p in
  let p := setSelectedItems (fun _ => []) p in
  let p := setError None p in
  let p := setIsIdentifying false p in
  render p.

Definition onApplySwap (clothingSourceImage : File)
  (itemsToSwap : list jsstring) (p : Panel) : Panel :=
  {| cells := cells p; mounted := mounted p;
     cleanup_source := cleanup_source p; url_log := url_log p;
     next_url := next_url p; in_flight := in_flight p;
     applied := applied p ++ [(clothingSourceImage, itemsToSwap)] |}.

Definition handleApply (p : Panel) : Panel :=
  match clothingSource (cells p) with
  | Some s =>
      if (0 <? List.length (selectedItems (cells p)))%nat
      then onApplySwap (file s) (selectedItems (cells p)) p
      else p
  | None => p
  end.

(** *** What is rendered *)

Definition has_source (p : Panel) : bool :=
  match clothingSource (cells p) with Some _ => true | None => false end.

(** [!clothingSource && !isIdentifying]: the uploader. *)
Definition uploader_shown (p : Panel) : bool :=
  (negb (has_source p) && negb (isIdentifying (cells p)))%bool.

(** [clothingSource && !isIdentifying && identifiedItems.length > 0]: the
    image, the reset link and the item buttons. *)
Definition items_shown (p : Panel) : bool :=
  (has_source p && negb (isIdentifying (cells p))
   && (0 <? List.length (identifiedItems (cells p)))%nat)%bool.

(** [clothingSource && !isIdentifying]: the Apply Swap button. *)
Definition apply_shown (p : Panel) : bool :=
  (has_source p && negb (isIdentifying (cells p)))%bool.

(** Its [disabled] attribute. *)
Definition apply_disabled (isLoading : bool) (p : Panel) : bool :=
  (isLoading || (List.length (selectedItems (cells p)) =? 0)%nat)%bool.

(** *** Executions of the controller *)

Inductive step (p : Panel) : Panel -> Prop :=
| step_select (files : option (list File)) :
    mounted p = true -> uploader_shown p = true ->
    step p (handleFileSelect files p)
| step_drag (over : bool) :
    mounted p = true -> uploader_shown p = true ->
    step p (render (setIsDraggingOver over p))
| step_settled (src : Source) (outcome : Result (list jsstring)) :
    In src (in_flight p) ->
    step p (identification_settled src outcome p)
| step_toggle (item : jsstring) :
    mounted p = true -> items_shown p = true ->
    In item (identifiedItems (cells p)) ->
    step p (handleToggleItem item p)
| step_reset :
    mounted p = true -> items_shown p = true ->
    step p (handleReset p)
| step_apply (isLoading : bool) :
    mounted p = true -> apply_shown p = true ->
    apply_disabled isLoading p = false ->
    step p (handleApply p)
| step_unmount :
    mounted p = true ->
    step p (unmount p).

Inductive reachable : Panel -> Prop :=
| reachable_initial : reachable initial
| reachable_step p q : reachable p -> step p q -> reachable q.

(** The spec's [ItemsReady] state. *)
Definition ItemsReady (p : Panel) : Prop :=
  mounted p = true /\ items_shown p = true.

(** *** The invariant of the executions *)

(** The mounted component holds the handle [u] as its [clothingSource]. *)
Definition showing (u : nat) (p : Panel) : bool :=
  (mounted p
   && match clothingSource (cells p) with
      | Some s => Nat.eqb (url s) u
      | None => false
      end)%bool.

(** A call of [identifyClothingItems] made for the handle [u] has not
    settled yet. *)
Definition awaited (u : nat) (p : Panel) : bool :=
  existsb (fun s => Nat.eqb (url s) u) (in_flight p).

(** The message of the Failed state. *)
Definition failure_message (outcome : Result (list jsstring)) : jsstring :=
  match outcome with
  | Return _ => lit "Could not identify any clothing items in the image. Please try another one."
  | Throw _ => lit "An error occurred while analyzing the image."
  end.

(** The items of an outcome that leads to ItemsReady: a returned,
    non-empty list. *)
Definition succeeded (outcome : Result (list jsstring))
  : option (list jsstring) :=
  match outcome with
  | Return (i :: items) => Some (i :: items)
  | _ => None
  end.

Record Inv (p : Panel) : Prop :=
  { (* the registered cleanup is the one of the current source *)
    inv_cleanup :
      mounted p = true -> cleanup_source p = clothingSource (cells p);
    inv_selection : NoDup (selectedItems (cells p));
    (* while mounted, at most one call is in flight: the one for the
       source on display *)
    inv_flight :
      mounted p = true ->
      in_flight p = []
      \/ exists src, in_flight p = [src]
                     /\ clothingSource (cells p) = Some src
                     /\ isIdentifying (cells p) = true;
    inv_source_bound :
      forall s, clothingSource (cells p) = Some s -> url s < next_url p;
    inv_flight_bound :
      forall s, In s (in_flight p) -> url s < next_url p;
    inv_created : forall u, allocated u p -> u < next_url p;
    inv_fresh : forall u, next_url p <= u -> revocations u p = 0;
    (* a handle on display has not been released; one that is only
       awaited was released by the teardown; any other was released once
       or twice *)
    inv_counts :
      forall u, u < next_url p ->
        if showing u p then revocations u p = 0
        else if awaited u p then revocations u p = 1
        else 1 <= revocations u p <= 2 }.

End SwapPanel.

(* ================================================================== *)
(** ** Sample inputs *)

Module Samples.

Import SwapPanel.

Definition silent_world : World :=
  {| reader := fun _ => None; remote := fun _ => Rejected [] |}.




(** The JSON text [{ clothing_items: [t-shirt, jeans] }] with its quotes. *)
Definition clothing_json : jsstring :=
  lit "{" ++ dq ++ lit "clothing_items" ++ dq ++ lit ": ["
  ++ dq ++ lit "t-shirt" ++ dq ++ lit "," ++ dq ++ lit "jeans" ++ dq
  ++ lit "]}".

Definition answer (t : jsstring) : GenerateContentResponse :=
  {| promptFeedback := None; candidates := None; text := Some t |}.

(** The JSON text between a bare opening fence and a closing fence. *)
Definition bare_fenced : jsstring :=
  lit "```" ++ nl ++ clothing_json ++ nl ++ lit "```".

(** The same between an opening fence tagged [json] and a closing fence. *)
Definition json_fenced : jsstring :=
  lit "```json" ++ nl ++ clothing_json ++ nl ++ lit "```".

(** The scenarios of the spec: image A is uploaded; its identification
    gives shirt and shorts; shirt is toggled on and off and shorts is
    selected.  Or the identification of the upload gives nothing. *)
Definition source0 : Source := {| file := FileObj 0; url := 0 |}.
Definition uploaded : Panel := handleFileSelect (Some [FileObj 0]) initial.
Definition ready : Panel :=
  identification_settled source0 (Return [lit "shirt"; lit "shorts"]) uploaded.
Definition shorts_selected : Panel :=
  handleToggleItem (lit "shorts")
    (handleToggleItem (lit "shirt") (handleToggleItem (lit "shirt") ready)).
Definition failed_upload : Panel :=
  identification_settled source0 (Return []) uploaded.

End Samples.

(* ================================================================== *)
(** ** Vocabulary for the further properties *)

Module Vocabulary.

Import Service SwapPanel.

(** A colon followed by [after] starts no match of [/:(.*?);/]: there is a
    line terminator before the first semicolon of [after], if [after] has
    a semicolon at all. *)
Definition no_match_from (after : jsstring) : Prop :=
  forall capture rest,
    after = capture ++ 59%N :: rest -> ~ In 59%N capture ->
    exists c, In c capture /\ is_line_terminator c = true.

(** [/:(.*?);/] has no match in [s]: no colon of [s] starts one. *)
Definition no_match (s : jsstring) : Prop :=
  forall before after, s = before ++ 58%N :: after -> no_match_from after.

(** [capture] is the group of the match of [/:(.*?);/] in [s], said without
    the matcher: [s] has a colon, then [capture], free of semicolons and
    line terminators, then a semicolon, and no earlier colon starts a
    match. *)
Definition leftmost_match (s capture : jsstring) : Prop :=
  exists pre post,
    s = pre ++ 58%N :: capture ++ 59%N :: post
    /\ ~ In 59%N capture
    /\ Forall (fun c => is_line_terminator c = false) capture
    /\ forall before after,
         pre = before ++ 58%N :: after ->
         no_match_from (after ++ 58%N :: capture ++ 59%N :: post).

(** The requests sent to the remote model during a run, in order. *)
Definition requests (tr : list Event) : list Request :=
  flat_map (fun e => match e with GenerateContent r => [r] | _ => [] end) tr.

(** The files read during a run, in order. *)
Definition reads (tr : list Event) : list File :=
  flat_map (fun e => match e with ReadAsDataURL f => [f] | _ => [] end) tr.

(** The lines written with [console.error] during a run. *)
Definition errors_logged (tr : list Event) : list jsstring :=
  flat_map (fun e => match e with ConsoleError m => [m] | _ => [] end) tr.

(** The request of an image operation: the images, then the prompt. *)
Definition image_request (images : list ImagePart) (prompt : jsstring)
  : Request :=
  {| model := image_model;
     contents := map Image images ++ [Text prompt];
     config := ImageAndText |}.

(** The shape that [generateEditedImage], [generateFilteredImage] and
    [generateAdjustedImage] share: a log line, the encoding, a log line,
    the request, a log line, the reading of the response. *)
Definition image_operation (starting sending received : jsstring)
  (prompt context : jsstring) (originalImage : File) : M jsstring :=
  console_log starting ;;;
  originalImagePart <- fileToPart originalImage ;;
  console_log sending ;;;
  response <- generateContent (image_request [originalImagePart] prompt) ;;
  console_log received ;;;
  handleApiResponse response context.

(** A response with one candidate that holds the given parts. *)
Definition response_with (ps : list Part) (more : list Candidate)
  : GenerateContentResponse :=
  {| promptFeedback := None;
     candidates :=
       Some ({| content := Some {| parts := Some ps |};
                finishReason := Some (lit "STOP") |} :: more);
     text := None |}.

Definition text_part (t : jsstring) : Part :=
  {| inlineData := None; part_text := Some t |}.

Definition image_part (mime payload : jsstring) : Part :=
  {| inlineData := Some {| mimeType := Some mime; data := Some payload |};
     part_text := None |}.

(** Text, two images, and a second candidate with a third image. *)
Definition two_images : GenerateContentResponse :=
  response_with
    [text_part (lit "Here you are."); image_part (lit "image/png") (lit "AAAA");
     image_part (lit "image/jpeg") (lit "BBBB")]
    [ {| content := Some {| parts := Some [image_part (lit "image/gif") (lit "CCCC")] |};
         finishReason := Some (lit "SAFETY") |} ].

(** A world whose reader gives every file the same data URL and whose
    remote model gives every request the same answer. *)
Definition constant_world (dataUrl : jsstring) (answer : RemoteResult)
  : World :=
  {| reader := fun _ => Some dataUrl; remote := fun _ => answer |}.

(** A string between double quotes. *)
Definition quoted (s : jsstring) : jsstring := dq ++ s ++ dq.

(** A character that stands for itself inside a JSON string: no control
    character, no double quote, no backslash. *)
Definition plain_char (c : N) : bool :=
  (N.leb 32 c && negb (N.eqb c 34) && negb (N.eqb c 92))%bool.

(** The compact JSON text of an object whose one member, [clothing_items],
    is the array of the given labels. *)
Definition labels_json (labels : list jsstring) : jsstring :=
  lit "{" ++ quoted clothing_items ++ lit ":["
  ++ join (lit ",") (map quoted labels) ++ lit "]}".

(** The handles that the log shows as created, in order. *)
Definition created (log : list UrlEvent) : list nat :=
  flat_map (fun e => match e with Created u => [u] | Revoked _ => [] end) log.

(** Every revocation in the log comes after the creation of its handle. *)
Definition revoked_after_created (log : list UrlEvent) : Prop :=
  forall before u after,
    log = before ++ Revoked u :: after -> In (Created u) before.

(** What the state cells, the calls in flight, the calls of the callback
    and the URL log look like in every execution. *)
Record Shape (p : Panel) : Prop :=
  { (* Identifying: a source, no label yet, no error *)
    shape_identifying :
      isIdentifying (cells p) = true ->
      clothingSource (cells p) <> None
      /\ identifiedItems (cells p) = []
      /\ selectedItems (cells p) = []
      /\ error (cells p) = None;
    (* ItemsReady: labels, no error *)
    shape_ready :
      isIdentifying (cells p) = false -> clothingSource (cells p) <> None ->
      identifiedItems (cells p) <> [] /\ error (cells p) = None;
    (* Empty or Failed: no label *)
    shape_empty :
      clothingSource (cells p) = None ->
      identifiedItems (cells p) = [] /\ selectedItems (cells p) = [];
    shape_selected :
      incl (selectedItems (cells p)) (identifiedItems (cells p));
    shape_pending :
      mounted p = true ->
      (isIdentifying (cells p) = true <-> in_flight p <> []);
    shape_calls :
      Forall (fun call => snd call <> [] /\ NoDup (snd call)) (applied p);
    shape_created : created (url_log p) = seq 0 (next_url p);
    shape_order : revoked_after_created (url_log p) }.

(** The inline handlers of the uploader.  [onDrop] clears the highlight
    and passes the dropped files on; its state updates and those of
    [handleFileSelect] up to the [await] are rendered together. *)
Definition onDragOver (p : Panel) : Panel :=
  render (setIsDraggingOver true p).

Definition onDragLeave (p : Panel) : Panel :=
  render (setIsDraggingOver false p).

Definition onDrop (files : option (list File)) (p : Panel) : Panel :=
  match files with
  | None | Some [] => render (setIsDraggingOver false p)
  | Some (_ :: _) => handleFileSelect files (setIsDraggingOver false p)
  end.

Definition onChange (files : option (list File)) (p : Panel) : Panel :=
  handleFileSelect files p.

(** The component torn down while the identification of the upload is
    still running. *)
Definition torn_down : Panel := unmount Samples.uploaded.

End Vocabulary.

(* ================================================================== *)
(** * Properties *)

(** ** Strings *)

Module JsFacts.

Lemma str_eqb_eq a b : str_eqb a b = true <-> a = b.
Proof. unfold str_eqb. destruct (list_eq_dec N.eq_dec a b); split; congruence. Qed.

Lemma str_eqb_refl a : str_eqb a a = true.
Proof. apply str_eqb_eq. reflexivity. Qed.

Lemma str_eqb_neq a b : str_eqb a b = false <-> a <> b.
Proof. unfold str_eqb. destruct (list_eq_dec N.eq_dec a b); split; congruence. Qed.

Lemma strip_prefix_app t rest : strip_prefix t (t ++ rest) = Some rest.
Proof.
  induction t as [|c t IH]; simpl; [reflexivity|].
  rewrite N.eqb_refl. exact IH.
Qed.

Lemma strip_prefix_some t s rest :
  strip_prefix t s = Some rest -> s = t ++ rest.
Proof.
  revert s. induction t as [|c t IH]; intros s H; simpl in H.
  - destruct s; inversion H; reflexivity.
  - destruct s as [|d s]; [discriminate|].
    destruct (N.eqb_spec c d) as [->|]; [|discriminate].
    simpl. f_equal. apply IH. exact H.
Qed.

(** [includes] finds every occurrence. *)
Lemma includes_occurrence pre t post : includes (pre ++ t ++ post) t = true.
Proof.
  induction pre as [|c pre IH].
  - simpl. destruct t; simpl.
    + destruct post; reflexivity.
    + rewrite N.eqb_refl. rewrite strip_prefix_app. reflexivity.
  - change ((c :: pre) ++ t ++ post) with (c :: (pre ++ t ++ post)).
    cbn [includes]. destruct (strip_prefix t (c :: pre ++ t ++ post));
      [reflexivity | exact IH].
Qed.

(** ... and only occurrences. *)
Lemma includes_true s t :
  includes s t = true -> exists pre post, s = pre ++ t ++ post.
Proof.
  induction s as [|c s IH]; cbn [includes]; intros H.
  - destruct (strip_prefix t []) as [rest|] eqn:E; [|discriminate].
    apply strip_prefix_some in E. exists [], rest. exact E.
  - destruct (strip_prefix t (c :: s)) as [rest|] eqn:E.
    + apply strip_prefix_some in E. exists [], rest. exact E.
    + destruct (IH H) as (pre & post & ->).
      exists (c :: pre), post. reflexivity.
Qed.

Lemma join_cons sep a l :
  l <> [] -> join sep (a :: l) = a ++ sep ++ join sep l.
Proof. destruct l; [congruence | reflexivity]. Qed.

Lemma join_app sep xs ys :
  xs <> [] -> ys <> [] ->
  join sep (xs ++ ys) = join sep xs ++ sep ++ join sep ys.
Proof.
  induction xs as [|a xs IH]; intros Hx Hy; [congruence|].
  destruct xs as [|b xs].
  - simpl app. rewrite join_cons by exact Hy. reflexivity.
  - change ((a :: b :: xs) ++ ys) with (a :: ((b :: xs) ++ ys)).
    rewrite join_cons by discriminate.
    rewrite IH by (discriminate || exact Hy).
    rewrite (@join_cons sep a (b :: xs)) by discriminate.
    rewrite <- !app_assoc. reflexivity.
Qed.

(** A block of consecutive lines of a template occurs in it verbatim. *)
Lemma includes_template_block xs ys zs :
  ys <> [] ->
  includes (template (xs ++ ys ++ zs)) (template ys) = true.
Proof.
  intros Hy. unfold template.
  destruct xs as [|x xs], zs as [|z zs].
  - rewrite app_nil_r. simpl app.
    rewrite <- (app_nil_r (join nl ys)) at 1.
    apply (includes_occurrence [] (join nl ys) []).
  - simpl app. rewrite join_app by (discriminate || exact Hy).
    apply (includes_occurrence [] (join nl ys)).
  - rewrite app_nil_r. rewrite join_app by (discriminate || exact Hy).
    rewrite <- (app_nil_r (join nl ys)) at 1.
    rewrite app_assoc.
    apply (includes_occurrence (join nl (x :: xs) ++ nl) (join nl ys) []).
  - rewrite join_app.
    + rewrite join_app by (discriminate || exact Hy).
      rewrite app_assoc.
      apply (includes_occurrence (join nl (x :: xs) ++ nl) (join nl ys)).
    + discriminate.
    + destruct ys; [congruence | discriminate].
Qed.

Lemma split_no_sep sep s : ~ In sep s -> split sep s = [s].
Proof.
  induction s as [|c s IH]; intros H; [reflexivity|].
  simpl. destruct (N.eqb_spec c sep) as [->|Hne].
  - exfalso. apply H. left. reflexivity.
  - rewrite IH; [reflexivity|]. intros Hin. apply H. right. exact Hin.
Qed.

Lemma split_not_nil sep s : split sep s <> [].
Proof.
  destruct s as [|c s]; simpl; [discriminate|].
  destruct (N.eqb c sep); [discriminate|].
  destruct (split sep s); discriminate.
Qed.

Lemma split_at_sep sep a b :
  ~ In sep a -> split sep (a ++ sep :: b) = a :: split sep b.
Proof.
  induction a as [|c a IH]; intros H.
  - simpl. rewrite N.eqb_refl. reflexivity.
  - simpl. destruct (N.eqb_spec c sep) as [->|Hne].
    + exfalso. apply H. left. reflexivity.
    + rewrite IH; [reflexivity|]. intros Hin. apply H. right. exact Hin.
Qed.

(** Fewer than two segments: there is no separator at all. *)
Lemma split_single sep s :
  (List.length (split sep s) <? 2)%nat = true <-> ~ In sep s.
Proof.
  split.
  - induction s as [|c s IH]; intros H Hin; [exact Hin|].
    simpl in H. destruct (N.eqb_spec c sep) as [->|Hne].
    + simpl in H. pose proof (@split_not_nil sep s) as Hn.
      destruct (split sep s); [congruence | discriminate].
    + destruct Hin as [->|Hin]; [congruence|].
      apply IH; [|exact Hin].
      destruct (split sep s); [reflexivity | exact H].
  - intros H. rewrite split_no_sep by exact H. reflexivity.
Qed.

End JsFacts.

(* ================================================================== *)
(** ** The JSON parser never runs out of fuel *)

Module JsonFacts.

Import Json JsFacts.

Ltac break_match_in H :=
  match type of H with
  | context [match ?e with _ => _ end] => destruct e eqn:?
  end.

Lemma skip_ws_length s : List.length (skip_ws s) <= List.length s.
Proof.
  induction s as [|c s IH]; simpl; [lia|].
  destruct (is_json_ws c); simpl; lia.
Qed.

Lemma expect_length c s r :
  expect c s = Some r -> List.length r < List.length s.
Proof.
  unfold expect. intros H. pose proof (skip_ws_length s) as Hs.
  destruct (skip_ws s) as [|d r']; [discriminate|].
  destruct (N.eqb d c); inversion H; subst. simpl in Hs. lia.
Qed.

Lemma strip_prefix_length t s r :
  strip_prefix t s = Some r -> List.length r <= List.length s.
Proof.
  intros H. apply strip_prefix_some in H. subst. rewrite length_app. lia.
Qed.

Lemma push_some c x str r :
  push c x = Some (str, r) -> exists str', x = Some (str', r).
Proof.
  destruct x as [[str' r']|]; simpl; intros H; inversion H; subst.
  eexists. reflexivity.
Qed.

Lemma parse_string_body_length n : forall s str r,
  List.length s <= n ->
  parse_string_body s = Some (str, r) -> List.length r < List.length s.
Proof.
  induction n as [|n IH]; intros s str r Hn H.
  - destruct s; [discriminate | simpl in Hn; lia].
  - destruct s as [|c s]; [discriminate|].
    cbn [parse_string_body] in H. simpl in Hn.
    destruct (N.eqb c 34).
    { inversion H; subst. simpl. lia. }
    destruct (N.eqb c 92).
    + destruct s as [|e r1]; [discriminate|].
      destruct (N.eqb e 117).
      * destruct r1 as [|h1 [|h2 [|h3 [|h4 r2]]]]; try discriminate.
        destruct (hex_value h1), (hex_value h2), (hex_value h3),
          (hex_value h4); try discriminate.
        apply push_some in H. destruct H as [str' H].
        apply IH in H; simpl in *; lia.
      * destruct (simple_escape e); [|discriminate].
        apply push_some in H. destruct H as [str' H].
        apply IH in H; simpl in *; lia.
    + destruct (N.ltb c 32); [discriminate|].
      apply push_some in H. destruct H as [str' H].
      apply IH in H; simpl in *; lia.
Qed.

Lemma parse_digits_length s :
  List.length (snd (parse_digits s)) <= List.length s.
Proof.
  induction s as [|c s IH]; simpl; [lia|].
  destruct (digit_value c); simpl; [|lia].
  destruct (parse_digits s); simpl in *. lia.
Qed.

Lemma parse_number_length s v r :
  parse_number s = Some (v, r) -> List.length r <= List.length s.
Proof.
  unfold parse_number. intros H.
  assert (H1 : List.length (snd (parse_minus s)) <= List.length s).
  { unfold parse_minus. destruct s as [|c s]; simpl; [lia|].
    destruct (N.eqb c 45); simpl; lia. }
  destruct (parse_minus s) as [negative s1]. simpl in H1.
  destruct (parse_int_part s1) as [[ints s2]|] eqn:Ei; [|discriminate].
  assert (H2 : List.length s2 <= List.length s1).
  { unfold parse_int_part in Ei. destruct s1 as [|c t]; [discriminate|].
    destruct (N.eqb c 48).
    - inversion Ei; subst. simpl. lia.
    - destruct (digit_value c); [|discriminate].
      pose proof (parse_digits_length t) as Hd.
      destruct (parse_digits t). inversion Ei; subst. simpl in *. lia. }
  destruct (parse_frac_part s2) as [[fracs s3]|] eqn:Ef; [|discriminate].
  assert (H3 : List.length s3 <= List.length s2).
  { unfold parse_frac_part in Ef. destruct s2 as [|c t].
    - inversion Ef; subst. simpl. lia.
    - destruct (N.eqb c 46).
      + pose proof (parse_digits_length t) as Hd.
        destruct (parse_digits t) as [[|d ds] rest]; [discriminate|].
        inversion Ef; subst. simpl in *. lia.
      + inversion Ef; subst. lia. }
  destruct (parse_exp_part s3) as [[e s4]|] eqn:Ee; [|discriminate].
  assert (H4 : List.length s4 <= List.length s3).
  { unfold parse_exp_part in Ee. destruct s3 as [|c t].
    - inversion Ee; subst. simpl. lia.
    - destruct (N.eqb c 101 || N.eqb c 69)%bool.
      + assert (Hs : List.length (snd (parse_sign t)) <= List.length t).
        { unfold parse_sign. destruct t as [|d t']; simpl; [lia|].
          destruct (N.eqb d 45); simpl; [lia|].
          destruct (N.eqb d 43); simpl; lia. }
        destruct (parse_sign t) as [negative' r1]. simpl in Hs.
        pose proof (parse_digits_length r1) as Hd.
        destruct (parse_digits r1) as [[|d ds] rest]; [discriminate|].
        inversion Ee; subst. simpl in *. lia.
      + inversion Ee; subst. lia. }
  inversion H; subst. lia.
Qed.

Lemma parse_literal_length s v r :
  parse_literal s = Some (v, r) -> List.length r <= List.length s.
Proof.
  unfold parse_literal. intros H.
  destruct (strip_prefix (lit "true") s) eqn:E1.
  { inversion H; subst. eapply strip_prefix_length; eassumption. }
  destruct (strip_prefix (lit "false") s) eqn:E2.
  { inversion H; subst. eapply strip_prefix_length; eassumption. }
  destruct (strip_prefix (lit "null") s) eqn:E3.
  { inversion H; subst. eapply strip_prefix_length; eassumption. }
  eapply parse_number_length; eassumption.
Qed.

(** What a parser leaves is never longer than what it was given. *)
Lemma parse_lengths fuel :
  (forall s v r, parse_value fuel s = Some (v, r) ->
                 List.length r <= List.length s)
  /\ (forall s vs r, parse_elements fuel s = Some (vs, r) ->
                     List.length r <= List.length s)
  /\ (forall s ms r, parse_members fuel s = Some (ms, r) ->
                     List.length r <= List.length s).
Proof.
  induction fuel as [|fuel (IHv & IHe & IHm)].
  - repeat split; intros; discriminate.
  - repeat split; intros s v r H;
      cbn [parse_value parse_elements parse_members] in H;
      repeat break_match_in H; try discriminate;
      inversion H; subst; clear H;
      repeat match goal with
        | E : expect _ _ = Some _ |- _ => apply expect_length in E
        | E : parse_string_body _ = Some _ |- _ =>
            apply (@parse_string_body_length _ _ _ _ (le_n _)) in E
        | E : parse_value fuel _ = Some _ |- _ => apply IHv in E
        | E : parse_elements fuel _ = Some _ |- _ => apply IHe in E
        | E : parse_members fuel _ = Some _ |- _ => apply IHm in E
        | E : parse_literal _ = Some _ |- _ => apply parse_literal_length in E
        end;
      try pose proof (skip_ws_length s); lia.
Qed.

(** Once the fuel exceeds twice the length of the input, more fuel
    changes nothing. *)
Lemma parse_stable fuel :
  (forall s more, 2 * List.length s + 1 <= fuel -> fuel <= more ->
                  parse_value more s = parse_value fuel s)
  /\ (forall s more, 2 * List.length s + 2 <= fuel -> fuel <= more ->
                     parse_elements more s = parse_elements fuel s)
  /\ (forall s more, 2 * List.length s + 2 <= fuel -> fuel <= more ->
                     parse_members more s = parse_members fuel s).
Proof.
  induction fuel as [|fuel (IHv & IHe & IHm)].
  - repeat split; intros; lia.
  - repeat split; intros s more Hs Hmore;
      (destruct more as [|more]; [lia|]);
      cbn [parse_value parse_elements parse_members].
    + destruct (expect 34 s); [reflexivity|].
      destruct (expect 91 s) as [r|] eqn:E1.
      { destruct (expect 93 r); [reflexivity|].
        apply expect_length in E1.
        rewrite (IHe r more) by lia. reflexivity. }
      destruct (expect 123 s) as [r|] eqn:E2; [|reflexivity].
      destruct (expect 125 r); [reflexivity|].
      apply expect_length in E2.
      rewrite (IHm r more) by lia. reflexivity.
    + rewrite (IHv s more) by lia.
      destruct (parse_value fuel s) as [[v r]|] eqn:Ev; [|reflexivity].
      apply (proj1 (parse_lengths fuel)) in Ev.
      destruct (expect 44 r) as [r1|] eqn:E1; [|reflexivity].
      apply expect_length in E1.
      rewrite (IHe r1 more) by lia. reflexivity.
    + destruct (expect 34 s) as [r|] eqn:E0; [|reflexivity].
      apply expect_length in E0.
      destruct (parse_string_body r) as [[key r1]|] eqn:Ek; [|reflexivity].
      apply (@parse_string_body_length _ _ _ _ (le_n _)) in Ek.
      destruct (expect 58 r1) as [r2|] eqn:E1; [|reflexivity].
      apply expect_length in E1.
      rewrite (IHv r2 more) by lia.
      destruct (parse_value fuel r2) as [[v r3]|] eqn:Ev; [|reflexivity].
      apply (proj1 (parse_lengths fuel)) in Ev.
      destruct (expect 44 r3) as [r4|] eqn:E2; [|reflexivity].
      apply expect_length in E2.
      rewrite (IHm r4 more) by lia. reflexivity.
Qed.

(** [enough_fuel] is enough: [parse] gives what any larger amount of fuel
    would give. *)
Lemma parse_value_fuel (fuel : nat) (s : jsstring) :
  enough_fuel s <= fuel ->
  parse_value fuel s = parse_value (enough_fuel s) s.
Proof.
  intros H. apply (proj1 (parse_stable (enough_fuel s))).
  - unfold enough_fuel. lia.
  - exact H.
Qed.

End JsonFacts.

(* ================================================================== *)
(** ** The service *)

Module ServiceFacts.

Import Service JsFacts Samples Vocabulary.


(** *** The monad *)

Lemma trace_bind {A B} (m : M A) (k : A -> M B) (w : World) :
  trace_of (bind m k w)
  = trace_of (m w)
    ++ match result_of (m w) with
       | Return a => trace_of (k a w)
       | Throw _ => []
       end.
Proof.
  unfold bind, trace_of, result_of. destruct (m w) as [tr [a|t]]; simpl.
  - destruct (k a w). reflexivity.
  - rewrite app_nil_r. reflexivity.
Qed.

Lemma result_bind {A B} (m : M A) (k : A -> M B) (w : World) :
  result_of (bind m k w)
  = match result_of (m w) with
    | Return a => result_of (k a w)
    | Throw t => Throw t
    end.
Proof.
  unfold bind, result_of. destruct (m w) as [tr [a|t]]; simpl.
  - destruct (k a w). reflexivity.
  - reflexivity.
Qed.

Lemma result_try_catch {A} (m : M A) (h : Thrown -> M A) (w : World) :
  result_of (try_catch m h w)
  = match result_of (m w) with
    | Return a => Return a
    | Throw t => result_of (h t w)
    end.
Proof.
  unfold try_catch, result_of. destruct (m w) as [tr [a|t]]; simpl.
  - reflexivity.
  - destruct (h t w). reflexivity.
Qed.

(** *** [handleApiResponse] *)



(** Without a block reason, an inline image part of the first candidate is
    returned as a data URL. *)
Lemma image_returned (w : World) (response : GenerateContentResponse)
  (context : jsstring) (blob : InlineData) :
  truthy (block_reason response) = false ->
  find_inline_data response = Some blob ->
  result_of (handleApiResponse response context w)
  = Return (lit "data:" ++ interp (mimeType blob) ++ lit ";base64,"
            ++ interp (data blob)).
Proof.
  intros Hb Hi. unfold handleApiResponse. rewrite Hb, Hi. reflexivity.
Qed.



(** *** [fileToPart] *)

Lemma lazy_until_semicolon_stops (capture rest : jsstring) :
  Forall (fun c => N.eqb c 59 = false /\ is_line_terminator c = false)
         capture ->
  lazy_until_semicolon (capture ++ 59%N :: rest) = Some capture.
Proof.
  induction 1 as [|c capture [Hs Hl] _ IH]; [reflexivity|].
  simpl app. cbn [lazy_until_semicolon]. rewrite Hs, Hl, IH. reflexivity.
Qed.

(** The data URL that a [FileReader] builds for a file of media type
    [mediaType] and base64 payload [payload] is split back into exactly
    that pair. *)
Lemma part_of_well_formed_data_url (mediaType payload : jsstring) :
  mediaType <> [] ->
  Forall (fun c => N.eqb c 59 = false /\ is_line_terminator c = false)
         mediaType ->
  ~ In 44%N mediaType -> ~ In 44%N payload ->
  part_of_data_url (lit "data:" ++ mediaType ++ lit ";base64," ++ payload)
  = Return {| part_mimeType := mediaType; part_data := payload |}.
Proof.
  intros Hne Hmt Hc Hp. unfold part_of_data_url.
  assert (Es : split 44 (lit "data:" ++ mediaType ++ lit ";base64," ++ payload)
               = [lit "data:" ++ mediaType ++ lit ";base64"; payload]).
  { change (lit ";base64," ++ payload)
      with (lit ";base64" ++ 44%N :: payload).
    rewrite !app_assoc.
    rewrite split_at_sep.
    - rewrite split_no_sep by exact Hp. reflexivity.
    - intros Hin. apply in_app_or in Hin. destruct Hin as [Hin|Hin].
      + apply in_app_or in Hin. destruct Hin as [Hin|Hin].
        * simpl in Hin. repeat (destruct Hin as [Hin|Hin]; [discriminate|]).
          exact Hin.
        * exact (Hc Hin).
      + simpl in Hin. repeat (destruct Hin as [Hin|Hin]; [discriminate|]).
        exact Hin. }
  rewrite Es. cbn [List.length Nat.ltb Nat.leb nth].
  assert (Em : mime_match (lit "data:" ++ mediaType ++ lit ";base64")
               = Some mediaType).
  { change (lit "data:" ++ mediaType ++ lit ";base64")
      with (100%N :: 97%N :: 116%N :: 97%N :: 58%N
            :: (mediaType ++ 59%N :: lit "base64")).
    cbn [mime_match N.eqb Pos.eqb].
    rewrite lazy_until_semicolon_stops by exact Hmt. reflexivity. }
  rewrite Em. destruct mediaType; [congruence | reflexivity].
Qed.

(** [/:(.*?);/] said without the matcher *)

Lemma lazy_match (s capture : jsstring) :
  lazy_until_semicolon s = Some capture
  <-> exists rest,
        s = capture ++ 59%N :: rest
        /\ ~ In 59%N capture
        /\ Forall (fun c => is_line_terminator c = false) capture.
Proof.
  split.
  - revert capture. induction s as [|c s IH]; intros capture H;
      [discriminate|].
    cbn [lazy_until_semicolon] in H.
    destruct (N.eqb_spec c 59) as [->|Hc].
    + inversion H; subst. exists s. repeat split; [intros [] | constructor].
    + destruct (is_line_terminator c) eqn:El; [discriminate|].
      destruct (lazy_until_semicolon s) as [cap|]; [|discriminate].
      inversion H; subst. destruct (IH cap eq_refl) as (rest & -> & H1 & H2).
      exists rest. repeat split.
      * intros [E|Hin]; [congruence | exact (H1 Hin)].
      * constructor; assumption.
  - intros (rest & -> & H1 & H2). apply lazy_until_semicolon_stops.
    rewrite Forall_forall in *. intros c Hin. split; [|exact (H2 c Hin)].
    apply N.eqb_neq. intros ->. exact (H1 Hin).
Qed.

Lemma lazy_no_match (s : jsstring) :
  lazy_until_semicolon s = None <-> no_match_from s.
Proof.
  split.
  - intros H capture rest E Hsemi.
    destruct (Forall_Exists_dec (fun c => is_line_terminator c = false)
                (fun c => bool_dec (is_line_terminator c) false) capture)
      as [Hall|Hex].
    + assert (Hm : lazy_until_semicolon s = Some capture)
        by (apply lazy_match; exists rest; auto).
      congruence.
    + apply Exists_exists in Hex. destruct Hex as (c & Hin & Hc).
      exists c. split; [exact Hin|].
      destruct (is_line_terminator c); [reflexivity | congruence].
  - intros H. destruct (lazy_until_semicolon s) as [capture|] eqn:E;
      [|reflexivity].
    apply lazy_match in E. destruct E as (rest & E & H1 & H2).
    destruct (H capture rest E H1) as (c & Hin & Hc).
    rewrite Forall_forall in H2. rewrite (H2 c Hin) in Hc. discriminate.
Qed.

Lemma mime_no_match (s : jsstring) : mime_match s = None <-> no_match s.
Proof.
  induction s as [|c s IH].
  - split; [|reflexivity]. intros _ before after E.
    destruct before; discriminate.
  - cbn [mime_match]. destruct (N.eqb_spec c 58) as [->|Hc].
    + destruct (lazy_until_semicolon s) as [cap|] eqn:El.
      * split; [discriminate|]. intros H.
        specialize (H [] s eq_refl). apply lazy_no_match in H. congruence.
      * rewrite IH. split.
        -- intros H before after E. destruct before as [|b before].
           ++ inversion E; subst. apply lazy_no_match. exact El.
           ++ inversion E; subst. exact (H before after eq_refl).
        -- intros H before after E. apply (H (58%N :: before) after).
           rewrite E. reflexivity.
    + rewrite IH. split.
      * intros H before after E. destruct before as [|b before].
        -- inversion E; subst. congruence.
        -- inversion E; subst. exact (H before after eq_refl).
      * intros H before after E. apply (H (c :: before) after).
        rewrite E. reflexivity.
Qed.

Lemma mime_leftmost (s capture : jsstring) :
  mime_match s = Some capture <-> leftmost_match s capture.
Proof.
  split.
  - induction s as [|c s IH]; intros H; [discriminate|].
    cbn [mime_match] in H. destruct (N.eqb_spec c 58) as [->|Hc].
    + destruct (lazy_until_semicolon s) as [cap|] eqn:El.
      * inversion H; subst. apply lazy_match in El.
        destruct El as (rest & -> & H1 & H2).
        exists [], rest. repeat split; try assumption.
        intros before after E. destruct before; discriminate.
      * destruct (IH H) as (pre & post & -> & H1 & H2 & H3).
        exists (58%N :: pre), post. repeat split; try assumption.
        intros before after E. destruct before as [|b before].
        -- inversion E; subst. apply lazy_no_match. exact El.
        -- inversion E; subst. exact (H3 before after eq_refl).
    + destruct (IH H) as (pre & post & -> & H1 & H2 & H3).
      exists (c :: pre), post. repeat split; try assumption.
      intros before after E. destruct before as [|b before].
      * inversion E; subst. congruence.
      * inversion E; subst. exact (H3 before after eq_refl).
  - intros (pre & post & -> & H1 & H2 & H3).
    induction pre as [|c pre IH].
    + simpl app. cbn [mime_match]. rewrite N.eqb_refl.
      replace (lazy_until_semicolon (capture ++ 59%N :: post))
        with (Some capture); [reflexivity|].
      symmetry. apply lazy_match. exists post. auto.
    + simpl app. cbn [mime_match].
      assert (Hrest : mime_match (pre ++ 58%N :: capture ++ 59%N :: post)
                      = Some capture).
      { apply IH. intros before after E. apply (H3 (c :: before) after).
        rewrite E. reflexivity. }
      destruct (N.eqb_spec c 58) as [->|Hc]; [|exact Hrest].
      replace (lazy_until_semicolon (pre ++ 58%N :: capture ++ 59%N :: post))
        with (@None jsstring); [exact Hrest|].
      symmetry. apply lazy_no_match. exact (H3 [] pre eq_refl).
Qed.

Lemma first_separator (sep : N) (s : jsstring) :
  In sep s ->
  exists header after, s = header ++ sep :: after /\ ~ In sep header.
Proof.
  induction s as [|c s IH]; intros H; [destruct H|].
  destruct (N.eq_dec c sep) as [->|Hc].
  - exists [], s. split; [reflexivity | intros []].
  - destruct H as [E|H]; [congruence|].
    destruct (IH H) as (header & after & -> & Hh).
    exists (c :: header), after. split; [reflexivity|].
    intros [E|Hin]; [congruence | exact (Hh Hin)].
Qed.

(** The first two segments of a text with a separator. *)
Lemma split_two (sep : N) (s : jsstring) :
  In sep s ->
  exists header second rest,
    s = header ++ sep :: second ++ rest
    /\ ~ In sep header /\ ~ In sep second
    /\ (rest = [] \/ exists more, rest = sep :: more)
    /\ nth 0 (split sep s) [] = header
    /\ nth 1 (split sep s) [] = second.
Proof.
  intros H. destruct (first_separator sep s H) as (header & after & -> & Hh).
  rewrite split_at_sep by exact Hh.
  destruct (in_dec N.eq_dec sep after) as [Hin|Hnin].
  - destruct (first_separator sep after Hin) as (second & more & -> & Hs).
    exists header, second, (sep :: more).
    rewrite split_at_sep by exact Hs.
    repeat split; try assumption. right. exists more. reflexivity.
  - exists header, after, []. rewrite split_no_sep by exact Hnin.
    rewrite app_nil_r. repeat split; try assumption. left. reflexivity.
Qed.

(** C9.  [fileToPart] reads the file once, and what it gives is settled by
    the text of the data URL alone.  It returns a part exactly when the
    read gives a data URL with a comma whose header, the text before the
    first comma, has a colon, then a non-empty text free of semicolons and
    line terminators, then a semicolon, no earlier colon starting such a
    match: the part pairs that text, the media type, with the text between
    the first comma and the next, the payload.  In every other case it
    fails with an encoding error: the reader's error event when the file
    cannot be read, [Invalid data URL] when there is no comma, [Could not
    parse MIME type from data URL] when the header has no match or an
    empty one.  In particular the data URL of a file of media type [m] and
    base64 payload [p], [data:m;base64,p], is returned as the pair of [m]
    and [p]. *)
Theorem fileToPart_outcome (w : World) (file : File) :
  trace_of (fileToPart file w) = [ReadAsDataURL file]
  /\ match result_of (fileToPart file w) with
     | Return part =>
         exists dataUrl header rest,
           reader w file = Some dataUrl
           /\ dataUrl = header ++ 44%N :: part_data part ++ rest
           /\ ~ In 44%N header
           /\ ~ In 44%N (part_data part)
           /\ (rest = [] \/ exists more, rest = 44%N :: more)
           /\ leftmost_match header (part_mimeType part)
           /\ part_mimeType part <> []
     | Throw t =>
         is_encoding_error t = true
         /\ ((reader w file = None /\ t = ReaderEvent)
             \/ exists dataUrl,
                  reader w file = Some dataUrl
                  /\ ((~ In 44%N dataUrl
                       /\ t = JsError EncodingError (lit "Invalid data URL"))
                      \/ (exists header after,
                            dataUrl = header ++ 44%N :: after
                            /\ ~ In 44%N header
                            /\ (no_match header \/ leftmost_match header [])
                            /\ t = JsError EncodingError
                                     (lit "Could not parse MIME type from data URL"))))
     end
  /\ (forall mediaType payload,
        mediaType <> [] ->
        Forall (fun c => N.eqb c 59 = false /\ is_line_terminator c = false)
               mediaType ->
        ~ In 44%N mediaType -> ~ In 44%N payload ->
        reader w file
        = Some (lit "data:" ++ mediaType ++ lit ";base64," ++ payload) ->
        fileToPart file w
        = ([ReadAsDataURL file],
           Return {| part_mimeType := mediaType; part_data := payload |})).
Proof.
  split; [|split].
  - unfold fileToPart, bind, readAsDataURL, trace_of.
    destruct (reader w file); reflexivity.
  - unfold fileToPart, bind, readAsDataURL, result_of.
    destruct (reader w file) as [dataUrl|]; simpl;
      [|split; [reflexivity | left; split; reflexivity]].
    unfold part_of_data_url.
    destruct (List.length (split 44 dataUrl) <? 2)%nat eqn:Elen.
    { apply split_single in Elen.
      split; [reflexivity|]. right. exists dataUrl.
      split; [reflexivity|]. left. split; [exact Elen | reflexivity]. }
    assert (Hin : In 44%N dataUrl).
    { destruct (in_dec N.eq_dec 44%N dataUrl) as [Hin|Hnin]; [exact Hin|].
      apply split_single in Hnin. congruence. }
    destruct (split_two 44 dataUrl Hin)
      as (header & second & rest & E & Hh & Hs & Hrest & E0 & E1).
    rewrite E0, E1.
    destruct (mime_match header) as [[|c capture]|] eqn:Em.
    + split; [reflexivity|]. right. exists dataUrl.
      split; [reflexivity|]. right. exists header, (second ++ rest).
      repeat split; try assumption.
      right. apply mime_leftmost. exact Em.
    + exists dataUrl, header, rest. simpl.
      repeat split; try assumption.
      * apply mime_leftmost. exact Em.
      * discriminate.
    + split; [reflexivity|]. right. exists dataUrl.
      split; [reflexivity|]. right. exists header, (second ++ rest).
      repeat split; try assumption.
      left. apply mime_no_match. exact Em.
  - intros mediaType payload Hne Hmt Hc Hp Hread.
    unfold fileToPart, bind, readAsDataURL. rewrite Hread.
    rewrite part_of_well_formed_data_url by assumption. reflexivity.
Qed.

Lemma fileToPart_outcome_witness :
  fileToPart (FileObj 0)
    (constant_world (lit "data:image/png;base64,iVBORw0KGgo=") (Rejected []))
  = ([ReadAsDataURL (FileObj 0)],
     Return {| part_mimeType := lit "image/png";
               part_data := lit "iVBORw0KGgo=" |}).
Proof.
  destruct (fileToPart_outcome
              (constant_world (lit "data:image/png;base64,iVBORw0KGgo=")
                 (Rejected []))
              (FileObj 0)) as (_ & _ & H).
  apply (H (lit "image/png") (lit "iVBORw0KGgo=")).
  - discriminate.
  - repeat constructor.
  - vm_compute. intuition discriminate.
  - vm_compute. intuition discriminate.
  - reflexivity.
Defined.

(** *** The empty selection *)

(** With a selection, the first effects are the log line and the read of
    the person's image. *)
Lemma swap_selected_reads_person (w : World)
  (personImage clothingSourceImage : File) (item : jsstring)
  (items : list jsstring) :
  exists later,
    trace_of (generateSwappedImage personImage clothingSourceImage
                (item :: items) w)
    = ConsoleLog (lit "Starting clothing swap with items: "
                  ++ join (lit ", ") (item :: items) ++ lit "...")
      :: ReadAsDataURL personImage :: later.
Proof.
  unfold generateSwappedImage. cbn [List.length Nat.eqb].
  rewrite trace_bind. cbn [console_log emit trace_of result_of fst snd app].
  rewrite trace_bind. unfold fileToPart at 1. rewrite trace_bind.
  cbn [readAsDataURL trace_of fst app]. eexists. reflexivity.
Qed.

(** C6.  With an empty list of items [generateSwappedImage] throws the
    error [No clothing items were selected to swap.] and its trace of
    effects is empty: no file is read, no request is sent, nothing is
    logged, whatever the two files are.  (With any item in the list the
    trace does hold the read of the person's image.) *)
Theorem swap_nothing_selected (w : World)
  (personImage clothingSourceImage : File) :
  generateSwappedImage personImage clothingSourceImage [] w
  = ([], Throw (JsError EmptySelectionError
                  (lit "No clothing items were selected to swap.")))
  /\ forallb (fun e => negb (is_encoding_or_network e))
       (trace_of (generateSwappedImage personImage clothingSourceImage [] w))
     = true
  /\ forall item items,
       existsb is_encoding_or_network
         (trace_of (generateSwappedImage personImage clothingSourceImage
                      (item :: items) w))
       = true.
Proof.
  split; [reflexivity|]. split; [reflexivity|].
  intros item items.
  destruct (swap_selected_reads_person w personImage clothingSourceImage
              item items) as [later E].
  rewrite E. reflexivity.
Qed.

(** *** The safety policy in the prompts *)

(** C2, as the code has it.  The policy block (the heading, the line that
    tells the model to fulfil skin-tone requests and the line that tells it
    to refuse a change of race or ethnicity) occurs verbatim in the prompt
    of the edit and in the prompt of the adjustment, whatever the user's
    text and the hotspot are.  The prompt of the filter always holds its own
    policy block, which forbids altering race or ethnicity. *)
Theorem safety_policy_in_prompts :
  (forall userPrompt hotspot,
     includes (edit_prompt userPrompt hotspot) safety_policy = true)
  /\ (forall adjustmentPrompt,
        includes (adjust_prompt adjustmentPrompt) safety_policy = true)
  /\ (forall filterPrompt,
        includes (filter_prompt filterPrompt) filter_safety_policy = true).
Proof.
  unfold safety_policy, filter_safety_policy, filter_policy_lines.
  split; [|split]; intros.
  - apply (@includes_template_block [_; _; _; _; _; _; _; _] [_; _; _] [_; _]).
    discriminate.
  - apply (@includes_template_block [_; _; _; _; _; _; _] [_; _; _] [_; _]).
    discriminate.
  - apply (@includes_template_block [_; _; _] [_; _; _] [_; _]).
    discriminate.
Qed.

(** C2 fails as stated: the prompt of a swap holds neither line of the
    policy (nor the word ethnicity at all), and the prompt of a filter does
    not hold the line on skin tone. *)
Lemma policy_missing_from_swap_and_filter :
  includes (swap_prompt [lit "shirt"]) skin_tone_line = false
  /\ includes (swap_prompt [lit "shirt"]) refuse_race_line = false
  /\ includes (swap_prompt [lit "shirt"]) (lit "ethnicity") = false
  /\ includes (filter_prompt (lit "sepia")) skin_tone_line = false
  /\ includes (filter_prompt (lit "sepia")) refuse_race_line = false.
Proof. vm_compute. repeat split; reflexivity. Qed.

(** *** Identification *)

Lemma identify_result (w : World) (image : File) :
  result_of (identifyClothingItems image w)
  = match result_of (fileToPart image w) with
    | Throw t => Throw t
    | Return imagePart =>
        match remote w (identification_request imagePart) with
        | Rejected _ => Return (Json.JArray [])
        | Resolved response => result_of (interpretIdentification response w)
        end
    end.
Proof.
  unfold identifyClothingItems. rewrite result_bind.
  cbn [console_log emit result_of snd]. rewrite result_bind.
  destruct (result_of (fileToPart image w)) as [imagePart|t]; [|reflexivity].
  rewrite result_try_catch, result_bind.
  unfold generateContent at 1. cbn [result_of snd].
  destruct (remote w (identification_request imagePart)) as [response|].
  - unfold interpretIdentification. rewrite result_try_catch. reflexivity.
  - reflexivity.
Qed.

Lemma interpret_result (w : World) (response : GenerateContentResponse) :
  result_of (interpretIdentification response w)
  = Return
      match text response with
      | None => Json.JArray []
      | Some t =>
          match Json.parse (clean_json (trim t)) with
          | None => Json.JArray []
          | Some (Json.JObject ms) =>
              or_empty_array (Json.lookup clothing_items ms)
          | Some _ => Json.JArray []
          end
      end.
Proof.
  unfold interpretIdentification. rewrite result_try_catch.
  unfold parse_identification.
  destruct (text response) as [t|]; [|reflexivity].
  destruct (Json.parse (clean_json (trim t))) as [value|]; [|reflexivity].
  rewrite result_bind. cbn [console_log emit result_of snd].
  destruct value; reflexivity.
Qed.

(** C3, as the code has it.  [fileToPart] runs before the [try] block: when
    the image cannot be read, or its data URL is malformed, its error
    leaves [identifyClothingItems].  Once the image is encoded the function
    always returns: the empty array when the remote call is rejected, when
    the response has no text, when the cleaned text is not JSON, and when
    the parsed value is not an object holding a truthy [clothing_items];
    that member otherwise. *)
Theorem identify_degrades_to_empty (w : World) (image : File) :
  match result_of (fileToPart image w) with
  | Throw t => result_of (identifyClothingItems image w) = Throw t
  | Return imagePart =>
      result_of (identifyClothingItems image w)
      = Return
          match remote w (identification_request imagePart) with
          | Rejected _ => Json.JArray []
          | Resolved response =>
              match text response with
              | None => Json.JArray []
              | Some t =>
                  match Json.parse (clean_json (trim t)) with
                  | None => Json.JArray []
                  | Some (Json.JObject ms) =>
                      match Json.lookup clothing_items ms with
                      | Some items =>
                          if Json.truthy items then items else Json.JArray []
                      | None => Json.JArray []
                      end
                  | Some _ => Json.JArray []
                  end
              end
          end
  end.
Proof.
  rewrite identify_result.
  destruct (result_of (fileToPart image w)) as [imagePart|t]; [|reflexivity].
  destruct (remote w (identification_request imagePart)) as [response|];
    [|reflexivity].
  rewrite interpret_result. reflexivity.
Qed.

(** C3 fails as stated: on a file that cannot be read the reader's error
    event leaves the function, and so does the error for a data URL
    without a comma. *)
Lemma identify_throws_on_unreadable_file :
  result_of (identifyClothingItems (FileObj 0) silent_world)
  = Throw ReaderEvent
  /\ result_of (identifyClothingItems (FileObj 0)
                  {| reader := fun _ => Some (lit "data:image/png;base64");
                     remote := fun _ => Rejected [] |})
     = Throw (JsError EncodingError (lit "Invalid data URL")).
Proof. split; reflexivity. Qed.

(** *** The fenced answer *)

Lemma trimStart_spaces (spaces rest : jsstring) :
  forallb is_space spaces = true ->
  trimStart (spaces ++ rest) = trimStart rest.
Proof.
  induction spaces as [|c spaces IH]; intros H; [reflexivity|].
  simpl in H. apply andb_true_iff in H. destruct H as [Hc Hs].
  simpl. rewrite Hc. apply IH. exact Hs.
Qed.

Lemma trimEnd_spaces (body spaces : jsstring) :
  forallb is_space spaces = true ->
  trimEnd (body ++ spaces) = trimEnd body.
Proof.
  intros H. unfold trimEnd. rewrite rev_app_distr.
  rewrite trimStart_spaces; [reflexivity|].
  rewrite forallb_forall in *. intros c Hc. apply H.
  apply in_rev. exact Hc.
Qed.

Lemma trimEnd_keeps (body : jsstring) (c : N) :
  is_space c = false -> trimEnd (body ++ [c]) = body ++ [c].
Proof.
  intros Hc. unfold trimEnd. rewrite rev_app_distr.
  simpl rev at 2. simpl app. cbn [trimStart]. rewrite Hc.
  simpl rev. rewrite rev_involutive. reflexivity.
Qed.

Lemma strip_closing_fence_end (body : jsstring) :
  ~ In 96%N body -> strip_closing_fence (body ++ fence) = body.
Proof.
  induction body as [|c body IH]; intros H; [reflexivity|].
  assert (Hc : N.eqb 96 c = false).
  { apply N.eqb_neq. intros <-. apply H. left. reflexivity. }
  simpl app. cbn [strip_closing_fence].
  change fence with [96%N; 96%N; 96%N] at 1.
  cbn [strip_prefix]. rewrite Hc. f_equal. apply IH.
  intros Hin. apply H. right. exact Hin.
Qed.

Lemma skip_ws_all (spaces : jsstring) :
  forallb Json.is_json_ws spaces = true -> Json.skip_ws spaces = [].
Proof.
  induction spaces as [|c spaces IH]; intros H; [reflexivity|].
  simpl in H. apply andb_true_iff in H. destruct H as [Hc Hs].
  simpl. rewrite Hc. apply IH. exact Hs.
Qed.

Lemma json_ws_no_backtick (spaces : jsstring) :
  forallb Json.is_json_ws spaces = true -> ~ In 96%N spaces.
Proof.
  rewrite forallb_forall. intros H Hin. specialize (H _ Hin). discriminate.
Qed.

(** The sample JSON text parses at any fuel from six on, whatever follows
    its closing brace. *)
Lemma parse_clothing_json (fuel : nat) (rest : jsstring) :
  Json.parse_value (6 + fuel) (clothing_json ++ rest)
  = Some (Json.JObject [(clothing_items,
                         string_array [lit "t-shirt"; lit "jeans"])], rest).
Proof. reflexivity. Qed.

(** C5, as the code has it.  When the text of the response is the sample
    JSON between an opening fence tagged [json] and a closing fence, with
    any whitespace around the fences and after the tag and JSON whitespace
    before the closing fence, both fences are stripped and the result is
    the array of [t-shirt] and [jeans], in that order. *)
Theorem json_fence_stripped (w : World) (response : GenerateContentResponse)
  (lead after_tag before_close trail : jsstring) :
  forallb is_space lead = true ->
  forallb is_space after_tag = true ->
  forallb Json.is_json_ws before_close = true ->
  forallb is_space trail = true ->
  text response
  = Some (lead ++ lit "```json" ++ after_tag ++ clothing_json
          ++ before_close ++ lit "```" ++ trail) ->
  clean_json (trim (lead ++ lit "```json" ++ after_tag ++ clothing_json
                    ++ before_close ++ lit "```" ++ trail))
  = clothing_json ++ before_close
  /\ result_of (interpretIdentification response w)
     = Return (string_array [lit "t-shirt"; lit "jeans"]).
Proof.
  intros Hlead Htag Hclose Htrail Htext.
  assert (Htrim :
    trim (lead ++ lit "```json" ++ after_tag ++ clothing_json
          ++ before_close ++ lit "```" ++ trail)
    = lit "```json" ++ after_tag ++ clothing_json ++ before_close
      ++ lit "```").
  { unfold trim. rewrite trimStart_spaces by exact Hlead.
    change (trimStart (lit "```json" ++ after_tag ++ clothing_json
                       ++ before_close ++ lit "```" ++ trail))
      with (lit "```json" ++ after_tag ++ clothing_json
            ++ before_close ++ lit "```" ++ trail).
    replace (lit "```json" ++ after_tag ++ clothing_json
             ++ before_close ++ lit "```" ++ trail)
      with ((lit "```json" ++ after_tag ++ clothing_json
             ++ before_close ++ lit "```") ++ trail)
      by (rewrite <- !app_assoc; reflexivity).
    rewrite trimEnd_spaces by exact Htrail.
    replace (lit "```json" ++ after_tag ++ clothing_json
             ++ before_close ++ lit "```")
      with ((lit "```json" ++ after_tag ++ clothing_json
             ++ before_close ++ lit "``") ++ [96%N])
      by (rewrite <- !app_assoc; reflexivity).
    apply trimEnd_keeps. reflexivity. }
  assert (Hclean :
    clean_json (lit "```json" ++ after_tag ++ clothing_json ++ before_close
                ++ lit "```")
    = clothing_json ++ before_close).
  { unfold clean_json. rewrite strip_prefix_app.
    rewrite trimStart_spaces by exact Htag.
    change (trimStart (clothing_json ++ before_close ++ lit "```"))
      with (clothing_json ++ before_close ++ lit "```").
    rewrite app_assoc. apply strip_closing_fence_end.
    intros Hin. apply in_app_or in Hin. destruct Hin as [Hin|Hin].
    - revert Hin. vm_compute. intuition discriminate.
    - exact (json_ws_no_backtick _ Hclose Hin). }
  split; [rewrite Htrim; exact Hclean|].
  rewrite interpret_result, Htext, Htrim, Hclean.
  unfold Json.parse.
  replace (Json.enough_fuel (clothing_json ++ before_close))
    with (6 + (74 + 2 * List.length before_close))
    by (unfold Json.enough_fuel; rewrite length_app;
        change (List.length clothing_json) with 39; lia).
  rewrite parse_clothing_json, skip_ws_all by exact Hclose.
  reflexivity.
Qed.

Lemma json_fence_stripped_witness :
  result_of (interpretIdentification (answer json_fenced) silent_world)
  = Return (string_array [lit "t-shirt"; lit "jeans"]).
Proof.
  apply (@json_fence_stripped silent_world (answer json_fenced)
           [] nl nl []); reflexivity.
Defined.

(** C5 fails as stated: after a bare opening fence only the closing fence
    is stripped, the text is not JSON, and the result is the empty
    array. *)
Lemma bare_fence_not_stripped :
  clean_json (trim bare_fenced) = lit "```" ++ nl ++ clothing_json ++ nl
  /\ result_of (interpretIdentification (answer bare_fenced) silent_world)
     = Return (Json.JArray [])
  /\ Json.JArray [] <> string_array [lit "t-shirt"; lit "jeans"].
Proof.
  split; [reflexivity|]. split; [reflexivity|]. discriminate.
Qed.

End ServiceFacts.

(* ================================================================== *)
(** ** The controller *)

Module PanelFacts.

Import SwapPanel JsFacts Samples.
(** *** Toggling *)

Lemma existsb_str_eqb (item : jsstring) (l : list jsstring) :
  existsb (str_eqb item) l = true <-> In item l.
Proof.
  rewrite existsb_exists. split.
  - intros (other & Hin & E). apply str_eqb_eq in E. subst. exact Hin.
  - intros Hin. exists item. split; [exact Hin | apply str_eqb_refl].
Qed.

Lemma filter_others (item : jsstring) (l : list jsstring) :
  forall other,
    In other (filter (fun x => negb (str_eqb x item)) l)
    <-> In other l /\ other <> item.
Proof.
  intros other. rewrite filter_In. split; intros [H1 H2]; split; auto.
  - apply negb_true_iff, str_eqb_neq in H2. exact H2.
  - apply negb_true_iff, str_eqb_neq. exact H2.
Qed.

Lemma filter_absent (item : jsstring) (l : list jsstring) :
  ~ In item l -> filter (fun x => negb (str_eqb x item)) l = l.
Proof.
  induction l as [|a l IH]; intros H; [reflexivity|].
  simpl. destruct (str_eqb a item) eqn:E.
  - apply str_eqb_eq in E. subst. exfalso. apply H. left. reflexivity.
  - simpl. f_equal. apply IH. intros Hin. apply H. right. exact Hin.
Qed.

Lemma toggle_absent (item : jsstring) (l : list jsstring) :
  ~ In item l -> toggle item l = l ++ [item].
Proof.
  intros H. unfold toggle.
  destruct (existsb (str_eqb item) l) eqn:E; [|reflexivity].
  apply existsb_str_eqb in E. contradiction.
Qed.

Lemma toggle_present (item : jsstring) (l : list jsstring) :
  In item l ->
  toggle item l = filter (fun x => negb (str_eqb x item)) l.
Proof.
  intros H. unfold toggle.
  apply existsb_str_eqb in H. rewrite H. reflexivity.
Qed.

Lemma toggle_NoDup (item : jsstring) (l : list jsstring) :
  NoDup l -> NoDup (toggle item l).
Proof.
  intros H. destruct (in_dec (list_eq_dec N.eq_dec) item l) as [Hin|Hnin].
  - rewrite toggle_present by exact Hin. apply NoDup_filter. exact H.
  - rewrite toggle_absent by exact Hnin.
    apply NoDup_app; [exact H | repeat constructor; intros [] | ].
    intros x Hx [<-|[]]. contradiction.
Qed.

Lemma remove_then_append (item : jsstring) (l : list jsstring) :
  NoDup l -> In item l ->
  Permutation (filter (fun x => negb (str_eqb x item)) l ++ [item]) l.
Proof.
  induction 1 as [|a l Ha Hl IH]; intros Hin; [destruct Hin|].
  simpl. destruct (str_eqb a item) eqn:E.
  - apply str_eqb_eq in E. subst a. simpl.
    rewrite filter_absent by exact Ha.
    apply Permutation_sym, Permutation_cons_append.
  - apply str_eqb_neq in E. destruct Hin as [->|Hin]; [congruence|].
    simpl. constructor. apply IH. exact Hin.
Qed.

(** Toggling the same label twice gives the selection back: the same list
    when the label was not selected, the same labels with the toggled one
    moved to the end when it was. *)
Lemma toggle_twice (item : jsstring) (l : list jsstring) :
  NoDup l ->
  Permutation (toggle item (toggle item l)) l
  /\ (~ In item l -> toggle item (toggle item l) = l).
Proof.
  intros H. destruct (in_dec (list_eq_dec N.eq_dec) item l) as [Hin|Hnin].
  - split; [|contradiction].
    rewrite (toggle_present item l Hin).
    rewrite toggle_absent.
    + apply remove_then_append; assumption.
    + intros Hf. apply filter_others in Hf. destruct Hf as [_ Hf]. congruence.
  - assert (E : toggle item (toggle item l) = l).
    { rewrite (toggle_absent item l Hnin).
      rewrite toggle_present by (apply in_or_app; right; left; reflexivity).
      rewrite filter_app. simpl. rewrite str_eqb_refl. simpl.
      rewrite app_nil_r. apply filter_absent. exact Hnin. }
    split; [rewrite E; reflexivity | intros _; exact E].
Qed.

(** *** Counting revocations *)

Lemma revs_app u l l' : revs u (l ++ l') = revs u l + revs u l'.
Proof. unfold revs. rewrite filter_app, length_app. reflexivity. Qed.

Lemma revs_revoked u v :
  revs u [Revoked v] = if Nat.eqb u v then 1 else 0.
Proof. unfold revs. simpl. destruct (Nat.eqb u v); reflexivity. Qed.

Lemma revs_created u v : revs u [Created v] = 0.
Proof. reflexivity. Qed.

(** *** The render and the handlers *)

Lemma same_source_refl o : same_source o o = true.
Proof. destruct o; simpl; [apply Nat.eqb_refl | reflexivity]. Qed.

Lemma render_same p :
  cleanup_source p = clothingSource (cells p) -> render p = p.
Proof.
  intros E. unfold render. rewrite E, same_source_refl.
  destruct (mounted p); reflexivity.
Qed.

Lemma render_unmounted p : mounted p = false -> render p = p.
Proof. intros E. unfold render. rewrite E. reflexivity. Qed.

Lemma render_cleared p s :
  mounted p = true -> cleanup_source p = Some s ->
  clothingSource (cells p) = None ->
  render p = set_cleanup_source None (revokeObjectURL (url s) p).
Proof.
  intros Hm Hc Hs. unfold render. rewrite Hm, Hc, Hs. reflexivity.
Qed.

Ltac inv_fields HI :=
  destruct HI as [Ha Hb Hc Hd He Hf Hg Hh];
  unfold revocations, allocated, showing, awaited in *; simpl in *.

Lemma select_preserves p files :
  Inv p -> mounted p = true -> uploader_shown p = true ->
  Inv (handleFileSelect files p).
Proof.
  intros HI Hm Hu.
  destruct files as [[|f fs]|]; try exact HI.
  destruct p as [[cs ii si idf er dr] m cl log nx fl ap].
  unfold uploader_shown, has_source in Hu.
  inv_fields HI. subst m.
  destruct cs; [discriminate|]. destruct idf; [discriminate|].
  specialize (Ha eq_refl). subst cl.
  destruct (Hc eq_refl) as [->|(src & _ & E & _)]; [|discriminate].
  clear Hc Hu.
  change (handleFileSelect _ _) with
    {| cells := {| clothingSource := Some {| file := f; url := nx |};
                   identifiedItems := []; selectedItems := [];
                   isIdentifying := true; error := None;
                   isDraggingOver := dr |};
       mounted := true;
       cleanup_source := Some {| file := f; url := nx |};
       url_log := log ++ [Created nx];
       next_url := S nx;
       in_flight := [{| file := f; url := nx |}];
       applied := ap |}.
  constructor; unfold revocations, allocated, showing, awaited; simpl.
  - reflexivity.
  - constructor.
  - intros _. right. eexists. repeat split.
  - intros s E. inversion E. simpl. lia.
  - intros s [<-|[]]. simpl. lia.
  - intros u Hin. apply in_app_or in Hin. destruct Hin as [Hin|[E|[]]].
    + specialize (Hf u Hin). lia.
    + inversion E. lia.
  - intros u Hu. rewrite revs_app, revs_created, Hg by lia. reflexivity.
  - intros u Hu. rewrite revs_app, revs_created, Nat.add_0_r.
    destruct (Nat.eqb_spec nx u) as [->|Hne].
    + apply Hg. lia.
    + simpl. apply (Hh u). lia.
Qed.

Lemma awaited_remove u src fl :
  existsb (fun s => Nat.eqb (url s) u) (remove_source src fl)
  = (negb (Nat.eqb (url src) u)
     && existsb (fun s => Nat.eqb (url s) u) fl)%bool.
Proof.
  unfold remove_source. induction fl as [|s fl IH]; simpl.
  - rewrite andb_false_r. reflexivity.
  - destruct (Nat.eqb_spec (url src) (url s)) as [E|E]; simpl.
    + rewrite IH. rewrite <- E.
      destruct (Nat.eqb (url src) u); reflexivity.
    + rewrite IH.
      destruct (Nat.eqb_spec (url src) u) as [E1|E1]; simpl;
        [|reflexivity].
      destruct (Nat.eqb_spec (url s) u) as [E2|E2]; [congruence|].
      reflexivity.
Qed.

Lemma awaited_member u src fl :
  In src fl -> url src = u ->
  existsb (fun s => Nat.eqb (url s) u) fl = true.
Proof.
  intros Hin E. apply existsb_exists. exists src.
  split; [exact Hin | apply Nat.eqb_eq; exact E].
Qed.

Lemma remove_source_bound src fl nx :
  (forall s, In s fl -> url s < nx) ->
  forall s, In s (remove_source src fl) -> url s < nx.
Proof.
  intros H s Hin. unfold remove_source in Hin.
  apply filter_In in Hin. apply H. tauto.
Qed.

Lemma settled_mounted_success c cl log nx fl ap src outcome items :
  succeeded outcome = Some items ->
  identification_settled src outcome
    {| cells := c; mounted := true; cleanup_source := cl; url_log := log;
       next_url := nx; in_flight := fl; applied := ap |}
  = render
      {| cells := {| clothingSource := clothingSource c;
                     identifiedItems := items;
                     selectedItems := selectedItems c;
                     isIdentifying := false; error := error c;
                     isDraggingOver := isDraggingOver c |};
         mounted := true; cleanup_source := cl; url_log := log;
         next_url := nx; in_flight := remove_source src fl;
         applied := ap |}.
Proof.
  destruct outcome as [[|i l]|t]; simpl; intros E; inversion E; subst.
  reflexivity.
Qed.

Lemma settled_mounted_failure c cl log nx fl ap src outcome :
  succeeded outcome = None ->
  identification_settled src outcome
    {| cells := c; mounted := true; cleanup_source := cl; url_log := log;
       next_url := nx; in_flight := fl; applied := ap |}
  = render
      {| cells := {| clothingSource := None;
                     identifiedItems := identifiedItems c;
                     selectedItems := selectedItems c;
                     isIdentifying := false;
                     error := Some (failure_message outcome);
                     isDraggingOver := isDraggingOver c |};
         mounted := true; cleanup_source := cl;
         url_log := log ++ [Revoked (url src)];
         next_url := nx; in_flight := remove_source src fl;
         applied := ap |}.
Proof.
  destruct outcome as [[|i l]|t]; simpl; intros E; inversion E; reflexivity.
Qed.

Lemma settled_unmounted c cl log nx fl ap src outcome :
  identification_settled src outcome
    {| cells := c; mounted := false; cleanup_source := cl; url_log := log;
       next_url := nx; in_flight := fl; applied := ap |}
  = {| cells := c; mounted := false; cleanup_source := cl;
       url_log := match succeeded outcome with
                  | Some _ => log
                  | None => log ++ [Revoked (url src)]
                  end;
       next_url := nx; in_flight := remove_source src fl; applied := ap |}.
Proof. destruct outcome as [[|i l]|t]; reflexivity. Qed.

Lemma remove_only src : remove_source src [src] = [].
Proof. unfold remove_source. simpl. rewrite Nat.eqb_refl. reflexivity. Qed.

Lemma settled_preserves p src outcome :
  Inv p -> In src (in_flight p) ->
  Inv (identification_settled src outcome p).
Proof.
  intros HI Hin.
  destruct p as [[cs ii si idf er dr] m cl log nx fl ap].
  inv_fields HI. destruct m.
  - specialize (Ha eq_refl). subst cl.
    destruct (Hc eq_refl) as [->|(src' & -> & -> & ->)]; [destruct Hin|].
    destruct Hin as [->|[]]. clear Hc.
    pose proof (Hd src eq_refl) as Hsrc.
    pose proof (Hh (url src) Hsrc) as Hzero.
    rewrite Nat.eqb_refl in Hzero. simpl in Hzero.
    destruct (succeeded outcome) as [items|] eqn:Eo.
    + rewrite (settled_mounted_success _ _ _ _ _ _ _ _ items Eo).
      rewrite render_same by reflexivity. rewrite remove_only.
      constructor; unfold revocations, allocated, showing, awaited; simpl;
        try assumption.
      * reflexivity.
      * intros _. left. reflexivity.
      * intros s [].
      * intros u Hu. specialize (Hh u Hu). simpl in Hh.
        rewrite orb_false_r in Hh.
        destruct (Nat.eqb (url src) u); assumption.
    + rewrite (settled_mounted_failure _ _ _ _ _ _ _ _ Eo).
      rewrite (render_cleared _ src) by reflexivity. rewrite remove_only.
      constructor; unfold revocations, allocated, showing, awaited; simpl;
        try assumption.
      * reflexivity.
      * intros _. left. reflexivity.
      * intros s E. discriminate.
      * intros s [].
      * intros u Hin. apply Hf.
        apply in_app_or in Hin. destruct Hin as [Hin|[E|[]]]; [|discriminate].
        apply in_app_or in Hin. destruct Hin as [Hin|[E|[]]]; [|discriminate].
        exact Hin.
      * intros u Hu. rewrite !revs_app, !revs_revoked.
        destruct (Nat.eqb_spec u (url src)); [lia|].
        rewrite Hg by lia. reflexivity.
      * intros u Hu. rewrite !revs_app, !revs_revoked.
        specialize (Hh u Hu). simpl in Hh. rewrite orb_false_r in Hh.
        destruct (Nat.eqb_spec u (url src)) as [->|Hne].
        -- rewrite Hzero. lia.
        -- destruct (Nat.eqb_spec (url src) u); [congruence|]. lia.
    - rewrite settled_unmounted.
      pose proof (He src Hin) as Hsrc.
      pose proof (Hh (url src) Hsrc) as Hone.
      rewrite (awaited_member (url src) src fl Hin eq_refl) in Hone.
      simpl in Hone.
      constructor; unfold revocations, allocated, showing, awaited; simpl;
        try assumption.
      + intros E. discriminate E.
      + apply remove_source_bound. exact He.
      + intros u Hin'. apply Hf.
        destruct (succeeded outcome); [exact Hin'|].
        apply in_app_or in Hin'. destruct Hin' as [H|[E|[]]];
          [exact H | discriminate].
      + intros u Hu. destruct (succeeded outcome); [apply Hg; exact Hu|].
        rewrite revs_app, revs_revoked, Hg by exact Hu.
        destruct (Nat.eqb_spec u (url src)); [lia | reflexivity].
      + intros u Hu. rewrite awaited_remove. specialize (Hh u Hu).
        simpl in Hh.
        destruct (Nat.eqb_spec (url src) u) as [<-|Hne]; simpl.
        * destruct (succeeded outcome); [lia|].
          rewrite revs_app, revs_revoked, Nat.eqb_refl. lia.
        * assert (E : revs u match succeeded outcome with
                             | Some _ => log
                             | None => log ++ [Revoked (url src)]
                             end = revs u log).
          { destruct (succeeded outcome); [reflexivity|].
            rewrite revs_app, revs_revoked.
            destruct (Nat.eqb_spec u (url src)); [congruence | lia]. }
          rewrite E. exact Hh.
Qed.

(** Only some fields matter to the invariant. *)
Lemma Inv_only p q :
  clothingSource (cells q) = clothingSource (cells p) ->
  isIdentifying (cells q) = isIdentifying (cells p) ->
  NoDup (selectedItems (cells q)) ->
  mounted q = mounted p -> cleanup_source q = cleanup_source p ->
  url_log q = url_log p -> next_url q = next_url p ->
  in_flight q = in_flight p ->
  Inv p -> Inv q.
Proof.
  intros E1 E2 Hs E3 E4 E5 E6 E7 [Ha Hb Hc Hd He Hf Hg Hh].
  constructor; unfold revocations, allocated, showing, awaited in *;
    rewrite ?E1, ?E2, ?E3, ?E4, ?E5, ?E6, ?E7; assumption.
Qed.

Lemma drag_preserves p over :
  Inv p -> Inv (render (setIsDraggingOver over p)).
Proof.
  intros HI. destruct p as [[cs ii si idf er dr] m cl log nx fl ap].
  destruct m.
  - rewrite render_same by (apply (inv_cleanup _ HI); reflexivity).
    pose proof (inv_selection _ HI) as Hsel.
    revert HI. apply Inv_only; try reflexivity. exact Hsel.
  - rewrite render_unmounted by reflexivity. exact HI.
Qed.

Lemma toggle_preserves p item :
  Inv p -> Inv (handleToggleItem item p).
Proof.
  intros HI. destruct p as [[cs ii si idf er dr] m cl log nx fl ap].
  unfold handleToggleItem. destruct m.
  - rewrite render_same by (apply (inv_cleanup _ HI); reflexivity).
    pose proof (inv_selection _ HI) as Hsel.
    revert HI. apply Inv_only; try reflexivity.
    apply toggle_NoDup. exact Hsel.
  - rewrite render_unmounted by reflexivity. exact HI.
Qed.

Lemma apply_preserves p : Inv p -> Inv (handleApply p).
Proof.
  intros HI. unfold handleApply.
  destruct (clothingSource (cells p)); [|exact HI].
  destruct (0 <? List.length (selectedItems (cells p)))%nat; [|exact HI].
  pose proof (inv_selection _ HI) as Hsel.
  revert HI. apply Inv_only; try reflexivity. exact Hsel.
Qed.

Lemma reset_preserves p :
  Inv p -> mounted p = true -> items_shown p = true -> Inv (handleReset p).
Proof.
  intros HI Hm Hs.
  destruct p as [[cs ii si idf er dr] m cl log nx fl ap].
  unfold items_shown, has_source in Hs.
  inv_fields HI. subst m.
  destruct cs as [s|]; [|discriminate]. destruct idf; [discriminate|].
  specialize (Ha eq_refl). subst cl.
  destruct (Hc eq_refl) as [->|(src & _ & _ & E)]; [|discriminate].
  clear Hc Hs.
  pose proof (Hd s eq_refl) as Hsrc.
  pose proof (Hh (url s) Hsrc) as Hzero.
  rewrite Nat.eqb_refl in Hzero. simpl in Hzero.
  change (handleReset _) with
    (render
       {| cells := {| clothingSource := None; identifiedItems := [];
                      selectedItems := []; isIdentifying := false;
                      error := None; isDraggingOver := dr |};
          mounted := true; cleanup_source := Some s;
          url_log := log ++ [Revoked (url s)];
          next_url := nx; in_flight := []; applied := ap |}).
  rewrite (render_cleared _ s) by reflexivity.
  constructor; unfold revocations, allocated, showing, awaited; simpl.
  - reflexivity.
  - constructor.
  - intros _. left. reflexivity.
  - intros s' E. discriminate.
  - intros s' [].
  - intros u Hin. apply Hf.
    apply in_app_or in Hin. destruct Hin as [Hin|[E|[]]]; [|discriminate].
    apply in_app_or in Hin. destruct Hin as [Hin|[E|[]]]; [|discriminate].
    exact Hin.
  - intros u Hu. rewrite !revs_app, !revs_revoked.
    destruct (Nat.eqb_spec u (url s)); [lia|].
    rewrite Hg by lia. reflexivity.
  - intros u Hu. rewrite !revs_app, !revs_revoked.
    specialize (Hh u Hu). simpl in Hh.
    destruct (Nat.eqb_spec u (url s)) as [->|Hne].
    + rewrite Hzero. lia.
    + destruct (Nat.eqb_spec (url s) u); [congruence|]. lia.
Qed.

Lemma unmount_preserves p :
  Inv p -> mounted p = true -> Inv (unmount p).
Proof.
  intros HI Hm.
  destruct p as [[cs ii si idf er dr] m cl log nx fl ap].
  inv_fields HI. subst m.
  specialize (Ha eq_refl). subst cl. clear Hc.
  destruct cs as [s|].
  - pose proof (Hd s eq_refl) as Hsrc.
    pose proof (Hh (url s) Hsrc) as Hzero.
    rewrite Nat.eqb_refl in Hzero. simpl in Hzero.
    constructor; unfold revocations, allocated, showing, awaited; simpl;
      try assumption.
    + intros E. discriminate E.
    + intros E. discriminate E.
    + intros u Hin. apply Hf.
      apply in_app_or in Hin. destruct Hin as [Hin|[E|[]]];
        [exact Hin | discriminate].
    + intros u Hu. rewrite revs_app, revs_revoked, Hg by exact Hu.
      destruct (Nat.eqb_spec u (url s)); [lia | reflexivity].
    + intros u Hu. rewrite revs_app, revs_revoked.
      specialize (Hh u Hu). simpl in Hh.
      destruct (Nat.eqb_spec u (url s)) as [->|Hne].
      * rewrite Hzero.
        destruct (existsb (fun s0 => Nat.eqb (url s0) (url s)) fl); lia.
      * destruct (Nat.eqb_spec (url s) u); [congruence|].
        rewrite Nat.add_0_r. exact Hh.
  - constructor; unfold revocations, allocated, showing, awaited; simpl;
      try assumption.
    + intros E. discriminate E.
    + intros E. discriminate E.
Qed.

Lemma initial_Inv : Inv initial.
Proof.
  constructor; unfold revocations, allocated, showing, awaited; simpl.
  - reflexivity.
  - constructor.
  - intros _. left. reflexivity.
  - intros s E. discriminate.
  - intros s [].
  - intros u [].
  - reflexivity.
  - intros u Hu. lia.
Qed.

Lemma step_preserves p q : Inv p -> step p q -> Inv q.
Proof.
  intros HI Hstep. destruct Hstep.
  - apply select_preserves; assumption.
  - apply drag_preserves; assumption.
  - apply settled_preserves; assumption.
  - apply toggle_preserves; assumption.
  - apply reset_preserves; assumption.
  - apply apply_preserves; assumption.
  - apply unmount_preserves; assumption.
Qed.

Lemma reachable_Inv p : reachable p -> Inv p.
Proof.
  induction 1 as [|p q _ IH Hstep]; [exact initial_Inv|].
  exact (step_preserves p q IH Hstep).
Qed.

Lemma uploaded_reachable : reachable uploaded.
Proof.
  apply (reachable_step initial); [apply reachable_initial|].
  apply step_select; reflexivity.
Qed.

Lemma failed_upload_reachable : reachable failed_upload.
Proof.
  apply (reachable_step uploaded); [apply uploaded_reachable|].
  apply step_settled. left. reflexivity.
Qed.

Lemma ready_reachable : reachable ready.
Proof.
  apply (reachable_step uploaded); [apply uploaded_reachable|].
  apply step_settled. left. reflexivity.
Qed.

Lemma shorts_selected_reachable : reachable shorts_selected.
Proof.
  unfold shorts_selected.
  apply (reachable_step
           (handleToggleItem (lit "shirt")
              (handleToggleItem (lit "shirt") ready))).
  - apply (reachable_step (handleToggleItem (lit "shirt") ready)).
    + apply (reachable_step ready); [apply ready_reachable|].
      apply step_toggle; [reflexivity | reflexivity | left; reflexivity].
    + apply step_toggle; [reflexivity | reflexivity | left; reflexivity].
  - apply step_toggle;
      [reflexivity | reflexivity | right; left; reflexivity].
Qed.

(** C7, as the code has it.  In every execution of the controller, a
    handle that [createObjectURL] has handed out is never leaked and is
    released at most twice: it is unreleased only while the mounted
    component shows it as its [clothingSource], and once the component is
    torn down it has been released.  Teardown releases the handle on
    display once, through the cleanup of the effect.  The transition to
    Failed (no item, or an error) and the explicit reset release it twice:
    the handler revokes it, and so does the cleanup of the effect when the
    render sees [clothingSource] cleared. *)
Theorem handles_released (p : Panel) (u : nat) :
  reachable p -> allocated u p ->
  revocations u p <= 2
  /\ (revocations u p = 0 ->
      mounted p = true
      /\ exists s, clothingSource (cells p) = Some s /\ url s = u)
  /\ (mounted p = false -> 1 <= revocations u p)
  /\ (forall src outcome,
        mounted p = true -> In src (in_flight p) -> url src = u ->
        succeeded outcome = None ->
        revocations u (identification_settled src outcome p) = 2)
  /\ (forall s,
        mounted p = true -> items_shown p = true ->
        clothingSource (cells p) = Some s -> url s = u ->
        revocations u (handleReset p) = 2)
  /\ (forall s,
        mounted p = true ->
        clothingSource (cells p) = Some s -> url s = u ->
        revocations u (unmount p) = 1).
Proof.
  intros Hr Hal. pose proof (reachable_Inv p Hr) as HI.
  pose proof (inv_created _ HI u Hal) as Hu.
  pose proof (inv_counts _ HI u Hu) as Hc.
  pose proof (inv_cleanup _ HI) as Ha.
  pose proof (inv_flight _ HI) as Hfl.
  unfold showing, awaited, revocations in *.
  destruct p as [[cs ii si idf er dr] m cl log nx fl ap]. simpl in *.
  split; [|split; [|split; [|split; [|split]]]].
  - destruct m, cs as [s|]; simpl in Hc;
      try destruct (Nat.eqb (url s) u);
      try destruct (existsb (fun s => Nat.eqb (url s) u) fl); lia.
  - intros Hz. destruct m, cs as [s|]; simpl in Hc;
      try (destruct (Nat.eqb_spec (url s) u));
      try (split; [reflexivity | exists s; split; [reflexivity | assumption]]);
      destruct (existsb (fun s => Nat.eqb (url s) u) fl); lia.
  - intros ->. simpl in Hc.
    destruct (existsb (fun s => Nat.eqb (url s) u) fl); lia.
  - intros src outcome -> Hin Hsrc Ho.
    specialize (Ha eq_refl). subst cl.
    destruct (Hfl eq_refl) as [->|(src' & -> & -> & ->)]; [destruct Hin|].
    destruct Hin as [->|[]]. subst u.
    rewrite Nat.eqb_refl in Hc. simpl in Hc.
    rewrite (settled_mounted_failure _ _ _ _ _ _ _ _ Ho).
    rewrite (render_cleared _ src) by reflexivity. simpl.
    rewrite !revs_app, !revs_revoked, Nat.eqb_refl. lia.
  - intros s -> Hs E Hsu. subst cs u.
    specialize (Ha eq_refl). subst cl.
    rewrite Nat.eqb_refl in Hc. simpl in Hc.
    change (handleReset _) with
      (render
         {| cells := {| clothingSource := None; identifiedItems := [];
                        selectedItems := []; isIdentifying := false;
                        error := None; isDraggingOver := dr |};
            mounted := true; cleanup_source := Some s;
            url_log := log ++ [Revoked (url s)];
            next_url := nx; in_flight := fl; applied := ap |}).
    rewrite (render_cleared _ s) by reflexivity. simpl.
    rewrite !revs_app, !revs_revoked, Nat.eqb_refl. lia.
  - intros s -> E Hsu. subst cs u.
    specialize (Ha eq_refl). subst cl.
    rewrite Nat.eqb_refl in Hc. simpl in Hc.
    simpl. rewrite revs_app, revs_revoked, Nat.eqb_refl. lia.
Qed.

Lemma handles_released_witness :
  revocations 0 failed_upload <= 2
  /\ (mounted failed_upload = false -> 1 <= revocations 0 failed_upload).
Proof.
  destruct (handles_released failed_upload 0) as (H1 & _ & H3 & _).
  - exact failed_upload_reachable.
  - left. reflexivity.
  - split; [exact H1 | exact H3].
Defined.

(** C7 fails as stated: after an upload whose identification finds no
    item, the one handle has been released twice. *)
Lemma failed_upload_released_twice :
  reachable failed_upload
  /\ allocated 0 failed_upload
  /\ revocations 0 failed_upload = 2
  /\ url_log failed_upload = [Created 0; Revoked 0; Revoked 0].
Proof.
  split; [exact failed_upload_reachable|].
  split; [left; reflexivity|]. split; reflexivity.
Qed.

(** C8.  In the ItemsReady state of an execution: toggling a label that is
    not selected appends it, toggling a selected one removes it, and no
    other label is touched; toggling the same label twice gives back the
    same selection (the same list when the label was not selected, the
    same labels in another order when it was); the Apply Swap button is
    disabled exactly when the selection is empty or [isLoading] holds; and
    [handleApply] with a non-empty selection makes one call of
    [onApplySwap], with the file of the uploaded source and the selected
    labels. *)
Theorem toggle_and_confirm (p : Panel) (src : Source) (item : jsstring)
  (isLoading : bool) :
  reachable p -> ItemsReady p -> clothingSource (cells p) = Some src ->
  let selection := selectedItems (cells p) in
  let toggled := selectedItems (cells (handleToggleItem item p)) in
  (~ In item selection -> toggled = selection ++ [item])
  /\ (In item selection ->
      toggled = filter (fun other => negb (str_eqb other item)) selection
      /\ ~ In item toggled)
  /\ (forall other, other <> item ->
        (In other toggled <-> In other selection))
  /\ Permutation
       (selectedItems
          (cells (handleToggleItem item (handleToggleItem item p))))
       selection
  /\ (~ In item selection ->
      selectedItems
        (cells (handleToggleItem item (handleToggleItem item p)))
      = selection)
  /\ (apply_disabled isLoading p = true
      <-> selection = [] \/ isLoading = true)
  /\ (selection <> [] ->
      handleApply p = onApplySwap (file src) selection p
      /\ applied (handleApply p) = applied p ++ [(file src, selection)]).
Proof.
  intros Hr [Hm Hready] Hsrc selection toggled.
  pose proof (reachable_Inv p Hr) as HI.
  pose proof (inv_selection _ HI) as Hnd.
  pose proof (inv_cleanup _ HI Hm) as Hcl.
  assert (Et : forall q x, mounted q = true ->
            cleanup_source q = clothingSource (cells q) ->
            handleToggleItem x q
            = setSelectedItems (toggle x) q).
  { intros q x Hq Hc. unfold handleToggleItem. apply render_same.
    destruct q as [c m cl log nx fl ap]. simpl in *. subst m. exact Hc. }
  assert (Es : forall q x, mounted q = true ->
            selectedItems (cells (setSelectedItems (toggle x) q))
            = toggle x (selectedItems (cells q))).
  { intros q x Hq. destruct q as [c m cl log nx fl ap]. simpl in *.
    subst m. reflexivity. }
  assert (Etog : toggled = toggle item selection).
  { unfold toggled. rewrite Et, Es by assumption. reflexivity. }
  assert (Etwice :
    selectedItems (cells (handleToggleItem item (handleToggleItem item p)))
    = toggle item (toggle item selection)).
  { rewrite (Et p) by assumption.
    rewrite Et.
    - rewrite !Es; [reflexivity | assumption |].
      destruct p as [c m cl log nx fl ap]. simpl in *. subst m. reflexivity.
    - destruct p as [c m cl log nx fl ap]. simpl in *. subst m. reflexivity.
    - destruct p as [c m cl log nx fl ap]. simpl in *. subst m. exact Hcl. }
  split; [|split; [|split; [|split; [|split; [|split]]]]].
  - intros Hnin. rewrite Etog. apply toggle_absent. exact Hnin.
  - intros Hin. rewrite Etog. rewrite (toggle_present item selection Hin).
    split; [reflexivity|].
    intros Hf. apply filter_others in Hf. destruct Hf as [_ Hf]. congruence.
  - intros other Hne. rewrite Etog.
    destruct (in_dec (list_eq_dec N.eq_dec) item selection) as [Hin|Hnin].
    + rewrite (toggle_present item selection Hin). rewrite filter_others.
      tauto.
    + rewrite (toggle_absent item selection Hnin). rewrite in_app_iff.
      simpl. split; [intros [H|[H|[]]]; [exact H | congruence] | tauto].
  - rewrite Etwice. apply toggle_twice. exact Hnd.
  - intros Hnin. rewrite Etwice. apply toggle_twice; assumption.
  - unfold apply_disabled. fold selection.
    rewrite orb_true_iff, Nat.eqb_eq, length_zero_iff_nil. tauto.
  - intros Hne. unfold handleApply. rewrite Hsrc. fold selection.
    destruct selection; [congruence|]. split; reflexivity.
Qed.

(** The scenario of the spec: image A, the labels shirt and shorts, shirt
    toggled on and off, shorts selected, confirm. *)
Lemma toggle_and_confirm_witness :
  apply_disabled false ready = true
  /\ selectedItems (cells shorts_selected) = [lit "shorts"]
  /\ applied (handleApply shorts_selected)
     = [(FileObj 0, [lit "shorts"])].
Proof.
  split; [reflexivity|]. split; [reflexivity|].
  destruct (toggle_and_confirm shorts_selected source0 (lit "shorts") false)
    as (_ & _ & _ & _ & _ & _ & H).
  - exact shorts_selected_reachable.
  - split; reflexivity.
  - reflexivity.
  - destruct H as [_ H]; [discriminate|]. rewrite H. reflexivity.
Defined.

Lemma render_keeps (p : Panel) :
  next_url (render p) = next_url p
  /\ in_flight (render p) = in_flight p
  /\ exists extra, url_log (render p) = url_log p ++ extra.
Proof.
  unfold render.
  destruct (mounted p); [|repeat split; exists []; symmetry; apply app_nil_r].
  destruct (same_source (cleanup_source p) (clothingSource (cells p)));
    [repeat split; exists []; symmetry; apply app_nil_r|].
  destruct (cleanup_source p) as [s|]; simpl.
  - repeat split. eexists. reflexivity.
  - repeat split. exists []. symmetry. apply app_nil_r.
Qed.

(** With a file, the handler does take a new handle and start a call. *)
Lemma select_file_allocates (p : Panel) (f : File) (fs : list File) :
  next_url (handleFileSelect (Some (f :: fs)) p) = S (next_url p)
  /\ allocated (next_url p) (handleFileSelect (Some (f :: fs)) p)
  /\ In {| file := f; url := next_url p |}
        (in_flight (handleFileSelect (Some (f :: fs)) p)).
Proof.
  destruct p as [c m cl log nx fl ap]. unfold allocated.
  assert (E : exists c',
    handleFileSelect (Some (f :: fs))
      {| cells := c; mounted := m; cleanup_source := cl; url_log := log;
         next_url := nx; in_flight := fl; applied := ap |}
    = render
        {| cells := c'; mounted := m; cleanup_source := cl;
           url_log := log ++ [Created nx]; next_url := S nx;
           in_flight := fl ++ [{| file := f; url := nx |}];
           applied := ap |}).
  { destruct m; eexists; reflexivity. }
  destruct E as [c' ->].
  match goal with |- context [render ?q] =>
    destruct (render_keeps q) as (E1 & E2 & extra & E3)
  end.
  rewrite E1, E2, E3. simpl. repeat split.
  - apply in_or_app. left. apply in_or_app. right. left. reflexivity.
  - apply in_or_app. right. left. reflexivity.
Qed.

(** C10.  [handleFileSelect] with [null] or with an empty file list returns
    at once: the state cells, the URL store and its log, the calls in
    flight and the calls of [onApplySwap] are what they were; no handle is
    taken and no identification is started, as both are with a file. *)
Theorem select_nothing (p : Panel) :
  handleFileSelect None p = p
  /\ handleFileSelect (Some []) p = p
  /\ forall f fs,
       next_url (handleFileSelect (Some (f :: fs)) p) <> next_url p
       /\ in_flight (handleFileSelect (Some (f :: fs)) p) <> [].
Proof.
  split; [reflexivity|]. split; [reflexivity|].
  intros f fs.
  destruct (select_file_allocates p f fs) as (E & _ & Hin).
  split.
  - rewrite E. apply Nat.neq_succ_diag_l.
  - intros Hnil. rewrite Hnil in Hin. destruct Hin.
Qed.

End PanelFacts.

(* ================================================================== *)
(** ** The service: further properties *)

Module ServiceExtra.

Import Service JsFacts Samples ServiceFacts Vocabulary.

Lemma handle_trace (w : World) (response : GenerateContentResponse)
  (context : jsstring) :
  reads (trace_of (handleApiResponse response context w)) = []
  /\ requests (trace_of (handleApiResponse response context w)) = [].
Proof.
  unfold handleApiResponse.
  destruct (truthy (block_reason response)); [split; reflexivity|].
  destruct (find_inline_data response); [split; reflexivity|].
  destruct (truthy (finish_reason response)
            && negb (str_eqb (or_empty (finish_reason response))
                       (lit "STOP")))%bool; split; reflexivity.
Qed.

Lemma image_operation_runs (w : World) (starting sending received : jsstring)
  (prompt context : jsstring) (img : File) :
  let run := image_operation starting sending received prompt context img w in
  reads (trace_of run) = [img]
  /\ match result_of (fileToPart img w) with
     | Throw t => requests (trace_of run) = [] /\ result_of run = Throw t
     | Return part =>
         requests (trace_of run) = [image_request [part] prompt]
         /\ result_of run
            = match remote w (image_request [part] prompt) with
              | Rejected reason => Throw (RemoteRejection reason)
              | Resolved response =>
                  result_of (handleApiResponse response context w)
              end
     end.
Proof.
  intros run. unfold run, image_operation.
  unfold bind, console_log, emit, fileToPart, readAsDataURL, generateContent,
    trace_of, result_of.
  unfold bind.
  destruct (reader w img) as [url|]; simpl; [|split; [|split]; reflexivity].
  destruct (part_of_data_url url) as [part|t]; simpl;
    [|split; [|split]; reflexivity].
  destruct (remote w (image_request [part] prompt)) as [response|reason];
    simpl; [|split; [|split]; reflexivity].
  pose proof (handle_trace w response context) as [Hr Hq].
  unfold trace_of in Hr, Hq.
  destruct (handleApiResponse response context w) as [tr res]. simpl in *.
  rewrite Hr, Hq. split; [|split]; reflexivity.
Qed.

(** *** Reading a response *)


Lemma find_first {A} (p : A -> bool) (before after : list A) (x : A) :
  Forall (fun a => p a = false) before -> p x = true ->
  find p (before ++ x :: after) = Some x.
Proof.
  induction 1 as [|a before Ha _ IH]; intros Hx; simpl.
  - rewrite Hx. reflexivity.
  - rewrite Ha. apply IH. exact Hx.
Qed.

(** Of the parts of the first candidate, the first one with inline data is
    the image returned: parts without inline data before it are skipped,
    parts after it and all other candidates are not looked at, and neither
    are the finish reason and the text of the response. *)
Theorem first_inline_part_wins (w : World)
  (response : GenerateContentResponse) (context : jsstring)
  (first : Candidate) (others : list Candidate)
  (before after : list Part) (p : Part) (blob : InlineData) :
  truthy (block_reason response) = false ->
  candidates response = Some (first :: others) ->
  content first = Some {| parts := Some (before ++ p :: after) |} ->
  Forall (fun q => inlineData q = None) before ->
  inlineData p = Some blob ->
  result_of (handleApiResponse response context w)
  = Return (lit "data:" ++ interp (mimeType blob) ++ lit ";base64,"
            ++ interp (data blob)).
Proof.
  intros Hb Hc Hct Hbefore Hp.
  apply image_returned; [exact Hb|].
  unfold find_inline_data, first_candidate. rewrite Hc, Hct. simpl.
  rewrite (find_first _ before after p).
  - exact Hp.
  - eapply Forall_impl; [|exact Hbefore]. intros q Hq. rewrite Hq. reflexivity.
  - rewrite Hp. reflexivity.
Qed.

Lemma first_inline_part_wins_witness :
  result_of (handleApiResponse two_images (lit "edit") silent_world)
  = Return (lit "data:image/png;base64,AAAA").
Proof.
  eapply (first_inline_part_wins silent_world two_images (lit "edit")
           _ _ [text_part (lit "Here you are.")]
           [image_part (lit "image/jpeg") (lit "BBBB")]
           (image_part (lit "image/png") (lit "AAAA"))
           {| mimeType := Some (lit "image/png"); data := Some (lit "AAAA") |});
    try reflexivity.
  repeat constructor.
Defined.

(** *** Data URLs *)

Lemma mime_match_skip (pre rest : jsstring) :
  ~ In 58%N pre -> mime_match (pre ++ rest) = mime_match rest.
Proof.
  induction pre as [|c pre IH]; intros H; [reflexivity|].
  simpl. destruct (N.eqb_spec c 58) as [->|_].
  - exfalso. apply H. left. reflexivity.
  - apply IH. intros Hin. apply H. right. exact Hin.
Qed.

(** A data URL with media-type parameters, and with further commas after
    the payload, is split into the bare media type (the text between the
    first colon and the first semicolon) and the segment between the first
    and the second comma: parameters and later segments are dropped. *)
Theorem media_type_parameters_dropped
  (scheme mediaType params payload rest : jsstring) :
  ~ In 58%N scheme -> ~ In 44%N scheme ->
  mediaType <> [] ->
  Forall (fun c => N.eqb c 59 = false /\ is_line_terminator c = false)
         mediaType ->
  ~ In 44%N mediaType -> ~ In 44%N params -> ~ In 44%N payload ->
  rest = [] \/ (exists more, rest = 44%N :: more) ->
  part_of_data_url (scheme ++ 58%N :: mediaType ++ 59%N :: params
                    ++ 44%N :: payload ++ rest)
  = Return {| part_mimeType := mediaType; part_data := payload |}.
Proof.
  intros Hs1 Hs2 Hne Hmt Hc Hpar Hp Hrest. unfold part_of_data_url.
  assert (Es : exists segments,
    split 44 (scheme ++ 58%N :: mediaType ++ 59%N :: params
              ++ 44%N :: payload ++ rest)
    = (scheme ++ 58%N :: mediaType ++ 59%N :: params)
        :: payload :: segments).
  { replace (scheme ++ 58%N :: mediaType ++ 59%N :: params
             ++ 44%N :: payload ++ rest)
      with ((scheme ++ 58%N :: mediaType ++ 59%N :: params)
            ++ 44%N :: payload ++ rest)
      by (rewrite <- app_assoc; simpl; rewrite <- app_assoc; reflexivity).
    rewrite split_at_sep.
    - destruct Hrest as [->|[more ->]].
      + rewrite app_nil_r, split_no_sep by exact Hp. exists []. reflexivity.
      + rewrite split_at_sep by exact Hp. eexists. reflexivity.
    - intros Hin. apply in_app_or in Hin. destruct Hin as [Hin|Hin];
        [exact (Hs2 Hin)|].
      destruct Hin as [Hin|Hin]; [discriminate|].
      apply in_app_or in Hin. destruct Hin as [Hin|Hin]; [exact (Hc Hin)|].
      destruct Hin as [Hin|Hin]; [discriminate | exact (Hpar Hin)]. }
  destruct Es as [segments ->]. cbn [List.length Nat.ltb Nat.leb nth].
  rewrite mime_match_skip by exact Hs1.
  cbn [mime_match]. rewrite N.eqb_refl.
  rewrite lazy_until_semicolon_stops by exact Hmt.
  destruct mediaType; [congruence | reflexivity].
Qed.

Lemma media_type_parameters_dropped_witness :
  part_of_data_url (lit "data:text/plain;charset=utf-8;base64,aGk=,x")
  = Return {| part_mimeType := lit "text/plain"; part_data := lit "aGk=" |}.
Proof.
  apply (media_type_parameters_dropped (lit "data") (lit "text/plain")
           (lit "charset=utf-8;base64") (lit "aGk=") (lit ",x")).
  - vm_compute. intuition discriminate.
  - vm_compute. intuition discriminate.
  - discriminate.
  - repeat constructor.
  - vm_compute. intuition discriminate.
  - vm_compute. intuition discriminate.
  - vm_compute. intuition discriminate.
  - right. eexists. reflexivity.
Defined.

Lemma lazy_until_semicolon_clean (s capture : jsstring) :
  lazy_until_semicolon s = Some capture ->
  ~ In 59%N capture
  /\ Forall (fun c => is_line_terminator c = false) capture.
Proof.
  revert capture. induction s as [|c s IH]; intros capture H; [discriminate|].
  cbn [lazy_until_semicolon] in H.
  destruct (N.eqb_spec c 59) as [Hc|Hc].
  - inversion H. split; [intros [] | constructor].
  - destruct (is_line_terminator c) eqn:El; [discriminate|].
    destruct (lazy_until_semicolon s) as [cap|]; [|discriminate].
    inversion H; subst. destruct (IH cap eq_refl) as [H1 H2]. split.
    + intros [E|Hin]; [congruence | exact (H1 Hin)].
    + constructor; assumption.
Qed.

Lemma mime_match_clean (s capture : jsstring) :
  mime_match s = Some capture ->
  ~ In 59%N capture
  /\ Forall (fun c => is_line_terminator c = false) capture.
Proof.
  induction s as [|c s IH]; intros H; [discriminate|].
  cbn [mime_match] in H. destruct (N.eqb c 58); [|exact (IH H)].
  destruct (lazy_until_semicolon s) as [cap|] eqn:E; [|exact (IH H)].
  inversion H; subst. exact (lazy_until_semicolon_clean s capture E).
Qed.

Lemma split_segments_clean (sep : N) (s : jsstring) :
  Forall (fun segment => ~ In sep segment) (split sep s).
Proof.
  induction s as [|c s IH]; simpl.
  - repeat constructor. intros [].
  - destruct (N.eqb_spec c sep) as [->|Hne].
    + constructor; [intros [] | exact IH].
    + destruct (split sep s) as [|h t]; [repeat constructor; intros [E|[]]; congruence|].
      inversion IH; subst. constructor; [|assumption].
      intros [E|Hin]; [congruence | contradiction].
Qed.

(** Whatever the file holds, a part that [fileToPart] returns has a
    non-empty media type without semicolon or line terminator, and a
    payload without comma. *)
Theorem part_fields_clean (w : World) (file : File) :
  match result_of (fileToPart file w) with
  | Return part =>
      part_mimeType part <> []
      /\ ~ In 59%N (part_mimeType part)
      /\ Forall (fun c => is_line_terminator c = false) (part_mimeType part)
      /\ ~ In 44%N (part_data part)
  | Throw _ => True
  end.
Proof.
  unfold fileToPart, bind, readAsDataURL, result_of.
  destruct (reader w file) as [dataUrl|]; simpl; [|exact I].
  unfold part_of_data_url.
  destruct (List.length (split 44 dataUrl) <? 2)%nat; [exact I|].
  destruct (mime_match (nth 0 (split 44 dataUrl) [])) as [[|c cap]|] eqn:Em;
    try exact I.
  destruct (mime_match_clean _ _ Em) as [H1 H2]. simpl.
  repeat split; try assumption; [discriminate|].
  pose proof (split_segments_clean 44 dataUrl) as Hs.
  rewrite Forall_forall in Hs.
  destruct (nth_in_or_default 1 (split 44 dataUrl) []) as [Hin|E].
  - apply Hs. exact Hin.
  - rewrite E. intros [].
Qed.

(** The data URL that [handleApiResponse] returns for an image is split
    back by [fileToPart] into the media type and the payload of that
    image. *)
Theorem returned_data_url_reencodes (w : World)
  (response : GenerateContentResponse) (context : jsstring)
  (blob : InlineData) (mediaType payload : jsstring) :
  truthy (block_reason response) = false ->
  find_inline_data response = Some blob ->
  mimeType blob = Some mediaType -> data blob = Some payload ->
  mediaType <> [] ->
  Forall (fun c => N.eqb c 59 = false /\ is_line_terminator c = false)
         mediaType ->
  ~ In 44%N mediaType -> ~ In 44%N payload ->
  exists url,
    result_of (handleApiResponse response context w) = Return url
    /\ part_of_data_url url
       = Return {| part_mimeType := mediaType; part_data := payload |}.
Proof.
  intros Hb Hi Hm Hd Hne Hmt Hc Hp.
  eexists. split.
  - apply image_returned; eassumption.
  - rewrite Hm, Hd. simpl interp.
    apply part_of_well_formed_data_url; assumption.
Qed.

Lemma returned_data_url_reencodes_witness :
  exists url,
    result_of (handleApiResponse two_images (lit "edit") silent_world)
    = Return url
    /\ part_of_data_url url
       = Return {| part_mimeType := lit "image/png";
                   part_data := lit "AAAA" |}.
Proof.
  apply (returned_data_url_reencodes silent_world two_images (lit "edit")
           {| mimeType := Some (lit "image/png"); data := Some (lit "AAAA") |});
    try reflexivity.
  - discriminate.
  - repeat constructor.
  - vm_compute. intuition discriminate.
  - vm_compute. intuition discriminate.
Defined.

(** *** The image operations *)

(** [generateEditedImage] reads the image once.  When the encoding fails it
    sends no request and fails with the encoding error.  Otherwise it sends
    one request, the encoded image followed by the prompt of the edit, to the
    image model; a rejection of that call leaves the function unchanged
    (nothing catches it), and an answer is read by [handleApiResponse]
    with the context [edit]. *)
Theorem edit_composition (w : World) (originalImage : File)
  (userPrompt : jsstring) (hotspot : Hotspot) :
  let run := generateEditedImage originalImage userPrompt hotspot w in
  reads (trace_of run) = [originalImage]
  /\ match result_of (fileToPart originalImage w) with
     | Throw t => requests (trace_of run) = [] /\ result_of run = Throw t
     | Return part =>
         requests (trace_of run)
         = [image_request [part] (edit_prompt userPrompt hotspot)]
         /\ result_of run
            = match remote w (image_request [part] (edit_prompt userPrompt hotspot)) with
              | Rejected reason => Throw (RemoteRejection reason)
              | Resolved response =>
                  result_of (handleApiResponse response (lit "edit") w)
              end
     end.
Proof.
  exact (image_operation_runs w _ _ _ (edit_prompt userPrompt hotspot) (lit "edit")
           originalImage).
Qed.

(** [generateFilteredImage] reads the image once.  When the encoding fails it
    sends no request and fails with the encoding error.  Otherwise it sends
    one request, the encoded image followed by the prompt of the filter, to the
    image model; a rejection of that call leaves the function unchanged
    (nothing catches it), and an answer is read by [handleApiResponse]
    with the context [filter]. *)
Theorem filter_composition (w : World) (originalImage : File)
  (filterPrompt : jsstring) :
  let run := generateFilteredImage originalImage filterPrompt w in
  reads (trace_of run) = [originalImage]
  /\ match result_of (fileToPart originalImage w) with
     | Throw t => requests (trace_of run) = [] /\ result_of run = Throw t
     | Return part =>
         requests (trace_of run)
         = [image_request [part] (filter_prompt filterPrompt)]
         /\ result_of run
            = match remote w (image_request [part] (filter_prompt filterPrompt)) with
              | Rejected reason => Throw (RemoteRejection reason)
              | Resolved response =>
                  result_of (handleApiResponse response (lit "filter") w)
              end
     end.
Proof.
  exact (image_operation_runs w _ _ _ (filter_prompt filterPrompt) (lit "filter")
           originalImage).
Qed.

(** [generateAdjustedImage] reads the image once.  When the encoding fails it
    sends no request and fails with the encoding error.  Otherwise it sends
    one request, the encoded image followed by the prompt of the adjustment, to the
    image model; a rejection of that call leaves the function unchanged
    (nothing catches it), and an answer is read by [handleApiResponse]
    with the context [adjustment]. *)
Theorem adjust_composition (w : World) (originalImage : File)
  (adjustmentPrompt : jsstring) :
  let run := generateAdjustedImage originalImage adjustmentPrompt w in
  reads (trace_of run) = [originalImage]
  /\ match result_of (fileToPart originalImage w) with
     | Throw t => requests (trace_of run) = [] /\ result_of run = Throw t
     | Return part =>
         requests (trace_of run)
         = [image_request [part] (adjust_prompt adjustmentPrompt)]
         /\ result_of run
            = match remote w (image_request [part] (adjust_prompt adjustmentPrompt)) with
              | Rejected reason => Throw (RemoteRejection reason)
              | Resolved response =>
                  result_of (handleApiResponse response (lit "adjustment") w)
              end
     end.
Proof.
  exact (image_operation_runs w _ _ _ (adjust_prompt adjustmentPrompt) (lit "adjustment")
           originalImage).
Qed.

(** [generateSwappedImage] with a selection reads the person's image, then
    the clothing image, and stops at the first that cannot be encoded: the
    clothing image is not read when the person's image fails, and no
    request is sent when either fails.  Otherwise it sends one request:
    the person, the clothing source, then the prompt with the selected
    items.  A rejection leaves the function unchanged, and an answer is
    read by [handleApiResponse] with the context [swap]. *)
Theorem swap_composition (w : World) (personImage clothingSourceImage : File)
  (item : jsstring) (items : list jsstring) :
  let run :=
    generateSwappedImage personImage clothingSourceImage (item :: items) w in
  match result_of (fileToPart personImage w) with
  | Throw t =>
      reads (trace_of run) = [personImage]
      /\ requests (trace_of run) = [] /\ result_of run = Throw t
  | Return personPart =>
      reads (trace_of run) = [personImage; clothingSourceImage]
      /\ match result_of (fileToPart clothingSourceImage w) with
         | Throw t => requests (trace_of run) = [] /\ result_of run = Throw t
         | Return clothingPart =>
             let request :=
               image_request [personPart; clothingPart]
                 (swap_prompt (item :: items)) in
             requests (trace_of run) = [request]
             /\ result_of run
                = match remote w request with
                  | Rejected reason => Throw (RemoteRejection reason)
                  | Resolved response =>
                      result_of (handleApiResponse response (lit "swap") w)
                  end
         end
  end.
Proof.
  intros run. unfold run, generateSwappedImage.
  cbn [List.length Nat.eqb].
  unfold bind, console_log, emit, fileToPart, readAsDataURL, generateContent,
    trace_of, result_of.
  unfold bind.
  destruct (reader w personImage) as [url|]; simpl;
    [|split; [|split]; reflexivity].
  destruct (part_of_data_url url) as [personPart|t]; simpl;
    [|split; [|split]; reflexivity].
  destruct (reader w clothingSourceImage) as [url'|]; simpl;
    [|split; [|split]; reflexivity].
  destruct (part_of_data_url url') as [clothingPart|t]; simpl;
    [|split; [|split]; reflexivity].
  change {| model := image_model;
            contents := [Image personPart; Image clothingPart;
                         Text (swap_prompt (item :: items))];
            config := ImageAndText |}
    with (image_request [personPart; clothingPart]
            (swap_prompt (item :: items))).
  destruct (remote w (image_request [personPart; clothingPart]
                        (swap_prompt (item :: items))))
    as [response|reason]; simpl; [|split; [|split]; reflexivity].
  pose proof (handle_trace w response (lit "swap")) as [Hr Hq].
  unfold trace_of in Hr, Hq.
  destruct (handleApiResponse response (lit "swap") w) as [tr res].
  simpl in *. rewrite Hr, Hq. split; [|split]; reflexivity.
Qed.

(** [identifyClothingItems] reads the image once.  When the encoding fails
    it sends no request.  Otherwise it sends one request, the image and
    the identification prompt, to the text model with the JSON schema; it
    writes the error line [Failed to identify clothing items:] exactly when
    its [try] block threw: the call was rejected, the response had no
    text, the cleaned text was not JSON, or the JSON value was [null]. *)
Theorem identify_effects (w : World) (image : File) :
  let run := identifyClothingItems image w in
  reads (trace_of run) = [image]
  /\ match result_of (fileToPart image w) with
     | Throw t =>
         requests (trace_of run) = [] /\ errors_logged (trace_of run) = []
     | Return part =>
         requests (trace_of run) = [identification_request part]
         /\ model (identification_request part) = lit "gemini-2.5-flash"
         /\ config (identification_request part) = ClothingItemsSchema
         /\ errors_logged (trace_of run)
            = match remote w (identification_request part) with
              | Rejected _ => [lit "Failed to identify clothing items:"]
              | Resolved response =>
                  match text response with
                  | None => [lit "Failed to identify clothing items:"]
                  | Some t =>
                      match Json.parse (clean_json (trim t)) with
                      | None | Some Json.JNull =>
                          [lit "Failed to identify clothing items:"]
                      | Some _ => []
                      end
                  end
              end
     end.
Proof.
  intros run. unfold run, identifyClothingItems.
  unfold bind, try_catch, console_log, emit, fileToPart, readAsDataURL,
    generateContent, identification_failed, trace_of, result_of.
  unfold bind.
  destruct (reader w image) as [url|]; simpl; [|split; [|split]; reflexivity].
  destruct (part_of_data_url url) as [part|t]; simpl;
    [|split; [|split]; reflexivity].
  destruct (remote w (identification_request part)) as [response|reason];
    simpl; [|repeat split].
  unfold parse_identification, throw, ret, bind, console_log, emit.
  destruct (text response) as [t|]; simpl; [|repeat split].
  destruct (Json.parse (clean_json (trim t))) as [value|]; simpl;
    [|repeat split].
  destruct value; simpl; repeat split.
Qed.

(** *** What the prompts embed *)

Lemma includes_line (xs zs : list jsstring) (line : jsstring) :
  includes (template (xs ++ [line] ++ zs)) line = true.
Proof.
  apply (includes_template_block xs [line] zs). discriminate.
Qed.

(** Every prompt carries the caller's text as it is, nothing escaped: the
    edit and the adjustment quote it after [User Request:], the filter
    after [Filter Request:], the edit gives the two coordinates of the
    hotspot as JavaScript prints them, and the swap lists the items
    separated by a comma and a space. *)
Theorem prompts_embed_input :
  (forall userPrompt hotspot,
     includes (edit_prompt userPrompt hotspot)
       (lit "User Request: " ++ dq ++ userPrompt ++ dq) = true
     /\ includes (edit_prompt userPrompt hotspot)
          (lit "Edit Location: Focus on the area around pixel coordinates (x: "
           ++ toString (x hotspot) ++ lit ", y: " ++ toString (y hotspot)
           ++ lit ").") = true)
  /\ (forall filterPrompt,
        includes (filter_prompt filterPrompt)
          (lit "Filter Request: " ++ dq ++ filterPrompt ++ dq) = true)
  /\ (forall adjustmentPrompt,
        includes (adjust_prompt adjustmentPrompt)
          (lit "User Request: " ++ dq ++ adjustmentPrompt ++ dq) = true)
  /\ (forall itemsToSwap,
        includes (swap_prompt itemsToSwap)
          (lit "- From the clothing source image, you must identify and use the following item(s): **"
           ++ join (lit ", ") itemsToSwap ++ lit "**.") = true).
Proof.
  split; [|split; [|split]]; intros.
  - split.
    + apply (includes_line [_] [_; _; _; _; _; _; _; _; _; _; _]).
    + apply (includes_line [_; _] [_; _; _; _; _; _; _; _; _; _]).
  - apply (includes_line [_] [_; _; _; _; _; _]).
  - apply (includes_line [_] [_; _; _; _; _; _; _; _; _; _]).
  - apply (includes_line [_; _; _; _; _; _; _]
             [_; _; _; _; _; _; _; _; _; _; _; _; _; _; _; _; _; _; _; _; _]).
Qed.

(** *** Reading an identification *)

Lemma forallb_false_in (f : N -> bool) (c : N) (l : jsstring) :
  In c l -> f c = false -> forallb f l = false.
Proof.
  intros Hin Hc. destruct (forallb f l) eqn:E; [|reflexivity].
  rewrite forallb_forall in E. rewrite (E c Hin) in Hc. discriminate.
Qed.

Lemma fence_prefix_keeps (pre tail after : jsstring) (c : N) :
  pre ++ c :: tail = [96%N; 96%N; 96%N] ++ after -> c <> 96%N ->
  In c after.
Proof.
  intros E Hc.
  destruct pre as [|p1 [|p2 [|p3 pre]]]; simpl in E; inversion E; subst;
    try congruence.
  apply in_or_app. right. left. reflexivity.
Qed.

(** The cleaning expression removes nothing up to and including a
    character that is neither whitespace nor a backtick. *)
Lemma strip_closing_fence_keeps (body tail : jsstring) (c : N) :
  is_space c = false -> c <> 96%N ->
  strip_closing_fence (body ++ c :: tail)
  = body ++ c :: strip_closing_fence tail.
Proof.
  intros Hs Hc. induction body as [|b body IH].
  - simpl app. cbn [strip_closing_fence].
    change fence with [96%N; 96%N; 96%N]. cbn [strip_prefix].
    destruct (N.eqb_spec 96 c); [congruence | reflexivity].
  - simpl app. cbn [strip_closing_fence].
    destruct (strip_prefix fence (b :: body ++ c :: tail)) as [after|] eqn:E.
    + apply strip_prefix_some in E.
      change fence with [96%N; 96%N; 96%N] in E.
      rewrite (forallb_false_in is_space c after);
        [rewrite IH; reflexivity | | exact Hs].
      apply (fence_prefix_keeps (b :: body) tail after c E Hc).
    + rewrite IH. reflexivity.
Qed.

Lemma expect_hit (c : N) (r : jsstring) :
  Json.is_json_ws c = false -> Json.expect c (c :: r) = Some r.
Proof.
  intros H. unfold Json.expect. cbn [Json.skip_ws]. rewrite H, N.eqb_refl.
  reflexivity.
Qed.

Lemma expect_miss (c d : N) (r : jsstring) :
  Json.is_json_ws d = false -> d <> c -> Json.expect c (d :: r) = None.
Proof.
  intros H Hne. unfold Json.expect. cbn [Json.skip_ws]. rewrite H.
  destruct (N.eqb_spec d c); [congruence | reflexivity].
Qed.

Lemma parse_plain_string (s rest : jsstring) :
  forallb plain_char s = true ->
  Json.parse_string_body (s ++ 34%N :: rest) = Some (s, rest).
Proof.
  induction s as [|c s IH]; intros H; [reflexivity|].
  simpl in H. apply andb_true_iff in H. destruct H as [Hc Hs].
  unfold plain_char in Hc.
  apply andb_true_iff in Hc. destruct Hc as [Hc H92].
  apply andb_true_iff in Hc. destruct Hc as [H32 H34].
  apply negb_true_iff in H34, H92. apply N.leb_le in H32.
  simpl app. cbn [Json.parse_string_body]. rewrite H34, H92.
  replace (N.ltb c 32) with false by (symmetry; apply N.ltb_ge; exact H32).
  rewrite (IH Hs). reflexivity.
Qed.

Lemma parse_quoted_value (fuel : nat) (s rest : jsstring) :
  forallb plain_char s = true ->
  Json.parse_value (S fuel) (quoted s ++ rest) = Some (Json.JString s, rest).
Proof.
  intros H. unfold quoted. rewrite <- !app_assoc. simpl app.
  cbn [Json.parse_value]. rewrite expect_hit by reflexivity.
  rewrite parse_plain_string by exact H. reflexivity.
Qed.

Lemma parse_elements_step (fuel : nat) (s : jsstring) :
  Json.parse_elements (S fuel) s
  = match Json.parse_value fuel s with
    | Some (v, r) =>
        match Json.expect 44 r with
        | Some r1 =>
            match Json.parse_elements fuel r1 with
            | Some (vs, rest) => Some (v :: vs, rest)
            | None => None
            end
        | None =>
            match Json.expect 93 r with
            | Some rest => Some ([v], rest)
            | None => None
            end
        end
    | None => None
    end.
Proof. reflexivity. Qed.

Lemma parse_label_elements (labels : list jsstring) :
  Forall (fun l => forallb plain_char l = true) labels ->
  labels <> [] ->
  forall fuel rest,
    List.length labels <= fuel ->
    Json.parse_elements (S fuel)
      (join (lit ",") (map quoted labels) ++ 93%N :: rest)
    = Some (map Json.JString labels, rest).
Proof.
  induction 1 as [|l labels Hl Hrest IH]; intros Hne fuel rest Hfuel;
    [exfalso; apply Hne; reflexivity|].
  destruct fuel as [|fuel]; [simpl in Hfuel; lia|].
  destruct labels as [|l' labels].
  - simpl join. rewrite parse_elements_step.
    rewrite parse_quoted_value by exact Hl.
    rewrite expect_miss by (reflexivity || discriminate).
    rewrite expect_hit by reflexivity. reflexivity.
  - change (join (lit ",") (map quoted (l :: l' :: labels)))
      with (quoted l ++ lit "," ++ join (lit ",") (map quoted (l' :: labels))).
    rewrite <- !app_assoc. rewrite parse_elements_step.
    rewrite parse_quoted_value by exact Hl.
    change (lit "," ++ join (lit ",") (map quoted (l' :: labels))
            ++ 93%N :: rest)
      with (44%N :: join (lit ",") (map quoted (l' :: labels))
            ++ 93%N :: rest).
    rewrite expect_hit by reflexivity.
    rewrite IH; [reflexivity | discriminate | simpl in *; lia].
Qed.

Lemma parse_labels_json (labels : list jsstring) (fuel : nat)
  (rest : jsstring) :
  Forall (fun l => forallb plain_char l = true) labels ->
  List.length labels + 4 <= fuel ->
  Json.parse_value fuel (labels_json labels ++ rest)
  = Some (Json.JObject [(clothing_items, string_array labels)], rest).
Proof.
  intros Hl Hfuel.
  destruct fuel as [|[|[|[|fuel]]]]; try lia.
  unfold labels_json, quoted. rewrite <- !app_assoc.
  change (lit "{" ++ dq ++ clothing_items ++ dq ++ lit ":["
          ++ join (lit ",") (map (fun s => dq ++ s ++ dq) labels)
          ++ lit "]}" ++ rest)
    with (123%N :: 34%N :: clothing_items ++ 34%N :: 58%N :: 91%N
          :: join (lit ",") (map quoted labels) ++ 93%N :: 125%N :: rest).
  cbn [Json.parse_value].
  rewrite (expect_miss 34 123) by (reflexivity || discriminate).
  rewrite (expect_miss 91 123) by (reflexivity || discriminate).
  rewrite expect_hit by reflexivity.
  rewrite (expect_miss 125 34) by (reflexivity || discriminate).
  cbn [Json.parse_members]. rewrite expect_hit by reflexivity.
  rewrite parse_plain_string by reflexivity.
  rewrite expect_hit by reflexivity.
  cbn [Json.parse_value].
  rewrite (expect_miss 34 91) by (reflexivity || discriminate).
  rewrite expect_hit by reflexivity.
  destruct labels as [|l labels].
  - simpl join. simpl app. rewrite expect_hit by reflexivity.
    rewrite (expect_miss 44 125) by (reflexivity || discriminate).
    rewrite expect_hit by reflexivity. reflexivity.
  - assert (E : Json.expect 93
                  (join (lit ",") (map quoted (l :: labels))
                   ++ 93%N :: 125%N :: rest) = None).
    { destruct labels; simpl join; unfold quoted; rewrite <- ?app_assoc;
        simpl app; apply expect_miss; (reflexivity || discriminate). }
    rewrite E.
    rewrite parse_label_elements;
      [|exact Hl | discriminate | simpl in *; lia].
    rewrite (expect_miss 44 125) by (reflexivity || discriminate).
    rewrite expect_hit by reflexivity. reflexivity.
Qed.

Lemma parse_labels_text (labels : list jsstring) (spaces : jsstring) :
  Forall (fun l => forallb plain_char l = true) labels ->
  forallb Json.is_json_ws spaces = true ->
  Json.parse (labels_json labels ++ spaces)
  = Some (Json.JObject [(clothing_items, string_array labels)]).
Proof.
  intros Hl Hs. unfold Json.parse.
  rewrite <- (JsonFacts.parse_value_fuel
                (Json.enough_fuel (labels_json labels ++ spaces)
                 + (List.length labels + 4))) by lia.
  rewrite parse_labels_json by (exact Hl || lia).
  rewrite skip_ws_all by exact Hs. reflexivity.
Qed.

Lemma labels_json_ends (labels : list jsstring) :
  exists body, labels_json labels = 123%N :: body ++ [125%N].
Proof.
  unfold labels_json.
  exists (quoted clothing_items ++ lit ":["
          ++ join (lit ",") (map quoted labels) ++ [93%N]).
  change (lit "]}") with ([93%N] ++ [125%N]).
  change (lit "{") with [123%N].
  simpl app. rewrite <- !app_assoc. reflexivity.
Qed.

(** Any list of labels made of plain characters comes back as it was sent:
    when the text of the response is the compact JSON object with these
    labels, bare or between a fence tagged [json] and a closing fence, the
    result is the array of these labels in the same order (the empty array
    for no label). *)
Theorem labels_round_trip (w : World) (response : GenerateContentResponse)
  (labels : list jsstring) :
  Forall (fun l => forallb plain_char l = true) labels ->
  text response = Some (labels_json labels)
  \/ text response
     = Some (lit "```json" ++ nl ++ labels_json labels ++ nl ++ lit "```") ->
  result_of (interpretIdentification response w)
  = Return (string_array labels).
Proof.
  intros Hl Htext. rewrite interpret_result.
  destruct (labels_json_ends labels) as [body Ebody].
  assert (Hdone : forall spaces,
    forallb Json.is_json_ws spaces = true ->
    match Json.parse (labels_json labels ++ spaces) with
    | Some (Json.JObject ms) =>
        or_empty_array (Json.lookup clothing_items ms)
    | _ => Json.JArray []
    end = string_array labels).
  { intros spaces Hs. rewrite parse_labels_text by assumption.
    unfold or_empty_array. cbn [Json.lookup].
    replace (str_eqb clothing_items clothing_items) with true
      by (symmetry; apply str_eqb_refl).
    reflexivity. }
  destruct Htext as [E|E]; rewrite E.
  - assert (Et : trim (labels_json labels) = labels_json labels).
    { rewrite Ebody. unfold trim.
      change (trimStart (123%N :: body ++ [125%N]))
        with (123%N :: body ++ [125%N]).
      apply (trimEnd_keeps (123%N :: body) 125). reflexivity. }
    assert (Ec : clean_json (labels_json labels) = labels_json labels).
    { rewrite Ebody. unfold clean_json.
      change (strip_prefix (lit "```json") (123%N :: body ++ [125%N]))
        with (@None jsstring).
      apply (strip_closing_fence_keeps (123%N :: body) [] 125);
        [reflexivity | discriminate]. }
    rewrite Et, Ec. rewrite <- (app_nil_r (labels_json labels)).
    rewrite (Hdone [] eq_refl). reflexivity.
  - assert (Et : trim (lit "```json" ++ nl ++ labels_json labels ++ nl
                       ++ lit "```")
                 = lit "```json" ++ nl ++ labels_json labels ++ nl
                   ++ lit "```").
    { unfold trim.
      change (trimStart (lit "```json" ++ nl ++ labels_json labels ++ nl
                         ++ lit "```"))
        with (lit "```json" ++ nl ++ labels_json labels ++ nl ++ lit "```").
      replace (lit "```json" ++ nl ++ labels_json labels ++ nl ++ lit "```")
        with ((lit "```json" ++ nl ++ labels_json labels ++ nl ++ lit "``")
              ++ [96%N])
        by (rewrite <- !app_assoc; reflexivity).
      apply trimEnd_keeps. reflexivity. }
    assert (Ec : clean_json (lit "```json" ++ nl ++ labels_json labels ++ nl
                             ++ lit "```")
                 = labels_json labels ++ nl).
    { unfold clean_json. rewrite strip_prefix_app. rewrite Ebody.
      change (trimStart (nl ++ (123%N :: body ++ [125%N]) ++ nl ++ lit "```"))
        with ((123%N :: body ++ [125%N]) ++ nl ++ lit "```").
      replace ((123%N :: body ++ [125%N]) ++ nl ++ lit "```")
        with ((123%N :: body) ++ 125%N :: nl ++ fence)
        by (simpl; rewrite <- !app_assoc; reflexivity).
      rewrite strip_closing_fence_keeps by (reflexivity || discriminate).
      rewrite strip_closing_fence_end
        by (intros [Hin|[]]; discriminate).
      simpl. rewrite <- app_assoc. reflexivity. }
    rewrite Et, Ec. rewrite (Hdone nl eq_refl). reflexivity.
Qed.

Lemma labels_round_trip_witness :
  result_of (interpretIdentification
               (answer (labels_json [lit "red dress"; lit "sneakers";
                                     lit "hat"]))
               silent_world)
  = Return (string_array [lit "red dress"; lit "sneakers"; lit "hat"])
  /\ result_of (interpretIdentification (answer (labels_json []))
                  silent_world)
     = Return (string_array []).
Proof.
  split.
  - apply (labels_round_trip silent_world _
             [lit "red dress"; lit "sneakers"; lit "hat"]).
    + repeat constructor.
    + left. reflexivity.
  - apply (labels_round_trip silent_world _ []).
    + constructor.
    + left. reflexivity.
Defined.

End ServiceExtra.

(* ================================================================== *)
(** ** The controller: further properties *)

Module PanelExtra.

Import SwapPanel JsFacts Samples PanelFacts Vocabulary.

(** *** The URL log *)

Lemma created_app l l' : created (l ++ l') = created l ++ created l'.
Proof. unfold created. apply flat_map_app. Qed.

Lemma created_in u log : In u (created log) <-> In (Created u) log.
Proof.
  unfold created. rewrite in_flat_map. split.
  - intros ([v|v] & Hin & H); simpl in H; [|destruct H].
    destruct H as [->|[]]. exact Hin.
  - intros Hin. exists (Created u). split; [exact Hin | left; reflexivity].
Qed.

Lemma order_created log u :
  revoked_after_created log -> revoked_after_created (log ++ [Created u]).
Proof.
  intros H before v after E.
  destruct (exists_last (l := after)) as (after' & e & ->).
  - intros ->. apply (f_equal (@rev UrlEvent)) in E.
    rewrite !rev_app_distr in E. simpl in E. discriminate.
  - change (before ++ Revoked v :: after' ++ [e])
      with (before ++ (Revoked v :: after') ++ [e]) in E.
    rewrite app_assoc in E. apply app_inj_tail in E. destruct E as [E _].
    exact (H before v after' E).
Qed.

Lemma order_revoked log u :
  revoked_after_created log -> In (Created u) log ->
  revoked_after_created (log ++ [Revoked u]).
Proof.
  intros H Hin before v after E.
  destruct after as [|a after].
  - apply app_inj_tail in E. destruct E as [-> E]. inversion E; subst.
    exact Hin.
  - destruct (exists_last (l := a :: after)) as (after' & e & Ea);
      [discriminate|].
    rewrite Ea in E.
    change (before ++ Revoked v :: after' ++ [e])
      with (before ++ (Revoked v :: after') ++ [e]) in E.
    rewrite app_assoc in E. apply app_inj_tail in E. destruct E as [E _].
    exact (H before v after' E).
Qed.

Lemma seq_created log n u :
  created log = seq 0 n -> u < n -> In (Created u) log.
Proof.
  intros E Hu. apply created_in. rewrite E. apply in_seq. lia.
Qed.

(** *** The shape of the states *)

Ltac shape_fields HS :=
  destruct HS as [Sa Sb Sc Sd Se Sf Sg Sh]; simpl in *.

Lemma initial_Shape : Shape initial.
Proof.
  constructor; simpl; try discriminate; try tauto.
  - intros l Hin. destruct Hin.
  - intros _. split; [discriminate | congruence].
  - constructor.
  - intros before u after E. destruct before; discriminate.
Qed.

(** Only the calls of the callback changed. *)
Lemma Shape_calls p q :
  cells q = cells p -> mounted q = mounted p -> in_flight q = in_flight p ->
  url_log q = url_log p -> next_url q = next_url p ->
  Forall (fun call => snd call <> [] /\ NoDup (snd call)) (applied q) ->
  Shape p -> Shape q.
Proof.
  intros E1 E2 E3 E4 E5 Hc [Sa Sb Sc Sd Se Sf Sg Sh].
  constructor; rewrite ?E1, ?E2, ?E3, ?E4, ?E5; assumption.
Qed.

Lemma select_Shape p files :
  Inv p -> Shape p -> mounted p = true -> uploader_shown p = true ->
  Shape (handleFileSelect files p).
Proof.
  intros HI HS Hm Hu.
  destruct files as [[|f fs]|]; try exact HS.
  destruct p as [[cs ii si idf er dr] m cl log nx fl ap].
  unfold uploader_shown, has_source in Hu.
  inv_fields HI. shape_fields HS. subst m.
  destruct cs; [discriminate|]. destruct idf; [discriminate|].
  specialize (Ha eq_refl). subst cl.
  change (handleFileSelect _ _) with
    {| cells := {| clothingSource := Some {| file := f; url := nx |};
                   identifiedItems := []; selectedItems := [];
                   isIdentifying := true; error := None;
                   isDraggingOver := dr |};
       mounted := true;
       cleanup_source := Some {| file := f; url := nx |};
       url_log := log ++ [Created nx];
       next_url := S nx;
       in_flight := fl ++ [{| file := f; url := nx |}];
       applied := ap |}.
  constructor; simpl; try discriminate.
  - intros _. repeat split. discriminate.
  - intros l Hin. destruct Hin.
  - intros _. split; [intros _|reflexivity].
    intros E. apply app_eq_nil in E. destruct E as [_ E]. discriminate.
  - exact Sf.
  - change (0 :: seq 1 nx) with (seq 0 (S nx)).
    rewrite created_app, Sg, seq_S. reflexivity.
  - apply order_created. exact Sh.
Qed.

Lemma drag_Shape p over :
  Inv p -> Shape p -> Shape (render (setIsDraggingOver over p)).
Proof.
  intros HI HS. destruct p as [[cs ii si idf er dr] m cl log nx fl ap].
  destruct m.
  - rewrite render_same by (apply (inv_cleanup _ HI); reflexivity).
    destruct HS as [Sa Sb Sc Sd Se Sf Sg Sh]. constructor; assumption.
  - rewrite render_unmounted by reflexivity. exact HS.
Qed.

Lemma toggle_incl item sel known :
  In item known -> incl sel known -> incl (toggle item sel) known.
Proof.
  intros Hin Hs x Hx. unfold toggle in Hx.
  destruct (existsb (str_eqb item) sel).
  - apply filter_In in Hx. apply Hs. tauto.
  - apply in_app_or in Hx. destruct Hx as [Hx|[<-|[]]]; [apply Hs|]; assumption.
Qed.

Lemma toggle_Shape p item :
  Inv p -> Shape p -> mounted p = true -> items_shown p = true ->
  In item (identifiedItems (cells p)) ->
  Shape (handleToggleItem item p).
Proof.
  intros HI HS Hm Hs Hin.
  destruct p as [[cs ii si idf er dr] m cl log nx fl ap].
  unfold items_shown, has_source in Hs. simpl in *. subst m.
  unfold handleToggleItem.
  rewrite render_same by (apply (inv_cleanup _ HI); reflexivity).
  destruct cs as [s|]; [|discriminate]. destruct idf; [discriminate|].
  shape_fields HS.
  constructor; simpl; try assumption; try discriminate.
  apply toggle_incl; assumption.
Qed.

Lemma apply_Shape p : Inv p -> Shape p -> Shape (handleApply p).
Proof.
  intros HI HS. unfold handleApply.
  destruct (clothingSource (cells p)) as [s|]; [|exact HS].
  destruct (0 <? List.length (selectedItems (cells p)))%nat eqn:E;
    [|exact HS].
  pose proof (shape_calls _ HS) as Hcalls.
  revert HS. apply Shape_calls; try reflexivity.
  simpl. apply Forall_app. split; [exact Hcalls|].
  constructor; [|constructor]. simpl. split.
  - intros E'. rewrite E' in E. discriminate.
  - apply (inv_selection _ HI).
Qed.

Lemma reset_Shape p :
  Inv p -> Shape p -> mounted p = true -> items_shown p = true ->
  Shape (handleReset p).
Proof.
  intros HI HS Hm Hs.
  destruct p as [[cs ii si idf er dr] m cl log nx fl ap].
  unfold items_shown, has_source in Hs.
  inv_fields HI. shape_fields HS. subst m.
  destruct cs as [s|]; [|discriminate]. destruct idf; [discriminate|].
  specialize (Ha eq_refl). subst cl.
  destruct (Hc eq_refl) as [->|(src & _ & _ & E)]; [|discriminate].
  pose proof (Hd s eq_refl) as Hsrc.
  change (handleReset _) with
    (render
       {| cells := {| clothingSource := None; identifiedItems := [];
                      selectedItems := []; isIdentifying := false;
                      error := None; isDraggingOver := dr |};
          mounted := true; cleanup_source := Some s;
          url_log := log ++ [Revoked (url s)];
          next_url := nx; in_flight := []; applied := ap |}).
  rewrite (render_cleared _ s) by reflexivity.
  assert (Hcr : In (Created (url s)) log) by (eapply seq_created; eassumption).
  constructor; simpl; try discriminate; try tauto.
  - intros l Hin. destruct Hin.
  - rewrite !created_app. simpl. rewrite !app_nil_r. exact Sg.
  - apply order_revoked; [apply order_revoked; assumption|].
    apply in_or_app. left. exact Hcr.
Qed.

Lemma unmount_Shape p :
  Inv p -> Shape p -> mounted p = true -> Shape (unmount p).
Proof.
  intros HI HS Hm.
  destruct p as [[cs ii si idf er dr] m cl log nx fl ap].
  inv_fields HI. shape_fields HS. subst m.
  specialize (Ha eq_refl). subst cl.
  destruct cs as [s|].
  - pose proof (Hd s eq_refl) as Hsrc.
    assert (Hcr : In (Created (url s)) log)
      by (eapply seq_created; eassumption).
    constructor; simpl; try assumption; try discriminate.
    + rewrite created_app. simpl. rewrite app_nil_r. exact Sg.
    + apply order_revoked; assumption.
  - constructor; simpl; try assumption; try discriminate.
Qed.

Lemma settled_Shape p src outcome :
  Inv p -> Shape p -> In src (in_flight p) ->
  Shape (identification_settled src outcome p).
Proof.
  intros HI HS Hin.
  destruct p as [[cs ii si idf er dr] m cl log nx fl ap].
  inv_fields HI. shape_fields HS.
  pose proof (He src Hin) as Hsrc.
  assert (Hcr : In (Created (url src)) log)
    by (eapply seq_created; eassumption).
  destruct m.
  - specialize (Ha eq_refl). subst cl.
    destruct (Hc eq_refl) as [->|(src' & -> & -> & ->)]; [destruct Hin|].
    destruct Hin as [->|[]].
    destruct (Sa eq_refl) as (_ & -> & -> & ->).
    destruct (succeeded outcome) as [items|] eqn:Eo.
    + rewrite (settled_mounted_success _ _ _ _ _ _ _ _ items Eo).
      rewrite render_same by reflexivity. rewrite remove_only.
      constructor; simpl; try assumption; try discriminate; try tauto.
      * intros _ _. split; [|reflexivity].
        destruct outcome as [[|i l]|t]; simpl in Eo; inversion Eo.
        discriminate.
      * intros l Hin. destruct Hin.
      * intros _. split; [discriminate | congruence].
    + rewrite (settled_mounted_failure _ _ _ _ _ _ _ _ Eo).
      rewrite (render_cleared _ src) by reflexivity. rewrite remove_only.
      constructor; simpl; try discriminate; try tauto.
      * intros _. split; [discriminate | congruence].
      * rewrite !created_app. simpl. rewrite !app_nil_r. exact Sg.
      * apply order_revoked; [apply order_revoked; assumption|].
        apply in_or_app. left. exact Hcr.
  - rewrite settled_unmounted.
    constructor; simpl; try assumption; try discriminate.
    + destruct (succeeded outcome); [exact Sg|].
      rewrite created_app. simpl. rewrite app_nil_r. exact Sg.
    + destruct (succeeded outcome); [exact Sh|].
      apply order_revoked; assumption.
Qed.

Lemma step_Shape p q : Inv p -> Shape p -> step p q -> Shape q.
Proof.
  intros HI HS Hstep. destruct Hstep.
  - apply select_Shape; assumption.
  - apply drag_Shape; assumption.
  - apply settled_Shape; assumption.
  - apply toggle_Shape; assumption.
  - apply reset_Shape; assumption.
  - apply apply_Shape; assumption.
  - apply unmount_Shape; assumption.
Qed.

Lemma reachable_Shape p : reachable p -> Shape p.
Proof.
  induction 1 as [|p q Hr IH Hstep]; [exact initial_Shape|].
  exact (step_Shape p q (reachable_Inv p Hr) IH Hstep).
Qed.

(** *** What the executions keep *)

(** At every moment of an execution the panel shows exactly one of its
    three views: the uploader, the spinner, or the image with its label
    buttons; and the Apply Swap button is on screen exactly with the
    labels. *)
Theorem one_view_at_a_time (p : Panel) :
  reachable p ->
  ((uploader_shown p = true /\ isIdentifying (cells p) = false
    /\ items_shown p = false)
   \/ (uploader_shown p = false /\ isIdentifying (cells p) = true
       /\ items_shown p = false)
   \/ (uploader_shown p = false /\ isIdentifying (cells p) = false
       /\ items_shown p = true))
  /\ apply_shown p = items_shown p.
Proof.
  intros Hr. destruct (reachable_Shape p Hr) as [Sa Sb Sc _ _ _ _ _].
  unfold uploader_shown, items_shown, apply_shown, has_source.
  destruct (isIdentifying (cells p)) eqn:Ei.
  - destruct (Sa eq_refl) as (Hs & _).
    destruct (clothingSource (cells p)); [|congruence].
    split; [right; left; repeat split | reflexivity].
  - destruct (clothingSource (cells p)) as [s|] eqn:Es.
    + destruct (Sb eq_refl) as [Hi _]; [discriminate|].
      destruct (identifiedItems (cells p)); [congruence|].
      split; [right; right; repeat split | reflexivity].
    + split; [left; repeat split | reflexivity].
Qed.

Lemma one_view_at_a_time_witness :
  apply_shown ready = items_shown ready
  /\ apply_shown uploaded = items_shown uploaded
  /\ apply_shown failed_upload = items_shown failed_upload.
Proof.
  split; [|split].
  - exact (proj2 (one_view_at_a_time ready ready_reachable)).
  - exact (proj2 (one_view_at_a_time uploaded uploaded_reachable)).
  - exact (proj2 (one_view_at_a_time failed_upload failed_upload_reachable)).
Defined.

(** While the component is mounted, the spinner is on exactly while a call
    of [identifyClothingItems] is running; at most one call runs, and it
    is the call for the source on display. *)
Theorem spinner_while_pending (p : Panel) :
  reachable p -> mounted p = true ->
  (isIdentifying (cells p) = true <-> in_flight p <> [])
  /\ List.length (in_flight p) <= 1
  /\ forall src, In src (in_flight p) ->
                 clothingSource (cells p) = Some src.
Proof.
  intros Hr Hm.
  pose proof (shape_pending _ (reachable_Shape p Hr) Hm) as Hp.
  pose proof (inv_flight _ (reachable_Inv p Hr) Hm) as Hf.
  split; [exact Hp|].
  destruct Hf as [E|(src & E & Hs & _)]; rewrite E; simpl.
  - split; [lia | intros src []].
  - split; [lia | intros src' [<-|[]]; exact Hs].
Qed.

Lemma spinner_while_pending_witness :
  (isIdentifying (cells uploaded) = true <-> in_flight uploaded <> [])
  /\ List.length (in_flight uploaded) <= 1
  /\ forall src, In src (in_flight uploaded) ->
                 clothingSource (cells uploaded) = Some src.
Proof.
  exact (spinner_while_pending uploaded uploaded_reachable eq_refl).
Defined.

(** The selection never holds a label twice and never holds a label that
    was not identified; without a source nothing is identified or
    selected. *)
Theorem selection_is_identified (p : Panel) :
  reachable p ->
  NoDup (selectedItems (cells p))
  /\ incl (selectedItems (cells p)) (identifiedItems (cells p))
  /\ (clothingSource (cells p) = None ->
      identifiedItems (cells p) = [] /\ selectedItems (cells p) = []).
Proof.
  intros Hr. pose proof (reachable_Shape p Hr) as HS.
  split; [apply (inv_selection _ (reachable_Inv p Hr))|].
  split; [apply (shape_selected _ HS) | apply (shape_empty _ HS)].
Qed.

Lemma selection_is_identified_witness :
  NoDup (selectedItems (cells shorts_selected))
  /\ incl (selectedItems (cells shorts_selected))
          (identifiedItems (cells shorts_selected)).
Proof.
  destruct (selection_is_identified shorts_selected
              shorts_selected_reachable) as (H1 & H2 & _).
  split; assumption.
Defined.

(** [handleApply] either does nothing or calls the callback once, with
    the file of the source and a non-empty selection; so in an execution
    every call of [onApplySwap] carries at least one label and no label
    twice. *)
Theorem callback_never_empty (p : Panel) :
  reachable p ->
  Forall (fun call => snd call <> [] /\ NoDup (snd call)) (applied p)
  /\ forall q,
       handleApply q = q
       \/ exists s,
            clothingSource (cells q) = Some s
            /\ selectedItems (cells q) <> []
            /\ handleApply q
               = onApplySwap (file s) (selectedItems (cells q)) q.
Proof.
  intros Hr. split; [apply (shape_calls _ (reachable_Shape p Hr))|].
  intros q. unfold handleApply.
  destruct (clothingSource (cells q)) as [s|]; [|left; reflexivity].
  destruct (selectedItems (cells q)) as [|l sel] eqn:E; simpl.
  - left. reflexivity.
  - right. exists s. repeat split. discriminate.
Qed.

Lemma callback_never_empty_witness :
  Forall (fun call => snd call <> [] /\ NoDup (snd call))
         (applied (handleApply shorts_selected)).
Proof.
  apply (callback_never_empty (handleApply shorts_selected)).
  apply (reachable_step shorts_selected);
    [exact shorts_selected_reachable|].
  apply (step_apply shorts_selected false); reflexivity.
Defined.

(** An error message is never hidden: whenever the error cell is set, the
    panel shows the uploader, the only view that renders the error, and
    there is no source, no label and no call in progress. *)
Theorem error_is_visible (p : Panel) :
  reachable p -> error (cells p) <> None ->
  uploader_shown p = true
  /\ clothingSource (cells p) = None
  /\ identifiedItems (cells p) = []
  /\ selectedItems (cells p) = [].
Proof.
  intros Hr He. destruct (reachable_Shape p Hr) as [Sa Sb Sc _ _ _ _ _].
  unfold uploader_shown, has_source.
  destruct (isIdentifying (cells p)) eqn:Ei.
  - destruct (Sa eq_refl) as (_ & _ & _ & E). congruence.
  - destruct (clothingSource (cells p)) as [s|] eqn:Es.
    + destruct (Sb eq_refl) as [_ E]; [discriminate | congruence].
    + destruct (Sc eq_refl) as [E1 E2]. repeat split; assumption.
Qed.

Lemma error_is_visible_witness :
  uploader_shown failed_upload = true
  /\ clothingSource (cells failed_upload) = None
  /\ identifiedItems (cells failed_upload) = []
  /\ selectedItems (cells failed_upload) = [].
Proof.
  apply (error_is_visible failed_upload failed_upload_reachable).
  discriminate.
Defined.

(** When the call in flight settles on the mounted component: a non-empty
    list of labels leads to the labels view, with these labels, nothing
    selected, no error and the Apply Swap button disabled; an empty list
    or an error leads back to the uploader, with the matching message and
    no source.  In both cases the spinner goes off and no call is left. *)
Theorem identification_outcome (p : Panel) (src : Source)
  (outcome : Result (list jsstring)) :
  reachable p -> mounted p = true -> In src (in_flight p) ->
  let q := identification_settled src outcome p in
  isIdentifying (cells q) = false /\ in_flight q = []
  /\ match succeeded outcome with
     | Some items =>
         items_shown q = true
         /\ clothingSource (cells q) = Some src
         /\ identifiedItems (cells q) = items
         /\ selectedItems (cells q) = []
         /\ error (cells q) = None
         /\ forall isLoading, apply_disabled isLoading q = true
     | None =>
         uploader_shown q = true
         /\ clothingSource (cells q) = None
         /\ identifiedItems (cells q) = []
         /\ selectedItems (cells q) = []
         /\ error (cells q) = Some (failure_message outcome)
     end.
Proof.
  intros Hr Hm Hin q. unfold q.
  pose proof (reachable_Inv p Hr) as HI.
  pose proof (reachable_Shape p Hr) as HS.
  destruct p as [[cs ii si idf er dr] m cl log nx fl ap].
  inv_fields HI. shape_fields HS. subst m.
  specialize (Ha eq_refl). subst cl.
  destruct (Hc eq_refl) as [->|(src' & -> & -> & ->)]; [destruct Hin|].
  destruct Hin as [->|[]].
  destruct (Sa eq_refl) as (_ & -> & -> & ->).
  destruct (succeeded outcome) as [items|] eqn:Eo.
  - rewrite (settled_mounted_success _ _ _ _ _ _ _ _ items Eo).
    rewrite render_same by reflexivity. rewrite remove_only.
    unfold items_shown, has_source, apply_disabled. simpl.
    repeat split.
    + destruct outcome as [[|i l]|t]; simpl in Eo; inversion Eo.
      reflexivity.
    + intros isLoading. apply orb_true_r.
  - rewrite (settled_mounted_failure _ _ _ _ _ _ _ _ Eo).
    rewrite (render_cleared _ src) by reflexivity. rewrite remove_only.
    unfold uploader_shown, has_source. simpl. repeat split.
Qed.

Lemma identification_outcome_witness :
  items_shown ready = true
  /\ identifiedItems (cells ready) = [lit "shirt"; lit "shorts"]
  /\ uploader_shown failed_upload = true
  /\ error (cells failed_upload)
     = Some (lit "Could not identify any clothing items in the image. Please try another one.").
Proof.
  destruct (identification_outcome uploaded source0
              (Return [lit "shirt"; lit "shorts"])
              uploaded_reachable eq_refl (or_introl eq_refl))
    as (_ & _ & H1 & _ & H2 & _).
  destruct (identification_outcome uploaded source0 (Return [])
              uploaded_reachable eq_refl (or_introl eq_refl))
    as (_ & _ & H3 & _ & _ & _ & H4).
  repeat split; assumption.
Defined.

(** The reset link leads from the labels view back to the empty panel: no
    source, no label, no selection, no error, no call in flight, the
    uploader on screen; the callback is not called. *)
Theorem reset_gives_empty (p : Panel) :
  reachable p -> ItemsReady p ->
  let q := handleReset p in
  cells q
  = {| clothingSource := None; identifiedItems := []; selectedItems := [];
       isIdentifying := false; error := None;
       isDraggingOver := isDraggingOver (cells p) |}
  /\ uploader_shown q = true /\ in_flight q = []
  /\ applied q = applied p /\ next_url q = next_url p.
Proof.
  intros Hr [Hm Hs] q. unfold q.
  pose proof (reachable_Inv p Hr) as HI.
  destruct p as [[cs ii si idf er dr] m cl log nx fl ap].
  unfold items_shown, has_source in Hs.
  inv_fields HI. subst m.
  destruct cs as [s|]; [|discriminate]. destruct idf; [discriminate|].
  specialize (Ha eq_refl). subst cl.
  destruct (Hc eq_refl) as [->|(src & _ & _ & E)]; [|discriminate].
  change (handleReset _) with
    (render
       {| cells := {| clothingSource := None; identifiedItems := [];
                      selectedItems := []; isIdentifying := false;
                      error := None; isDraggingOver := dr |};
          mounted := true; cleanup_source := Some s;
          url_log := log ++ [Revoked (url s)];
          next_url := nx; in_flight := []; applied := ap |}).
  rewrite (render_cleared _ s) by reflexivity.
  repeat split.
Qed.

Lemma reset_gives_empty_witness :
  uploader_shown (handleReset shorts_selected) = true
  /\ in_flight (handleReset shorts_selected) = [].
Proof.
  destruct (reset_gives_empty shorts_selected shorts_selected_reachable)
    as (_ & H1 & H2 & _).
  - split; reflexivity.
  - split; assumption.
Defined.

(** After teardown nothing moves any more: a call that settles late
    changes no state cell, allocates no handle and calls no callback, and
    no other step is possible. *)
Theorem after_teardown (p q : Panel) :
  reachable p -> mounted p = false -> step p q ->
  cells q = cells p /\ mounted q = false
  /\ applied q = applied p /\ next_url q = next_url p
  /\ exists src outcome,
       In src (in_flight p) /\ q = identification_settled src outcome p.
Proof.
  intros _ Hm Hstep.
  destruct Hstep as [files H|over H|src outcome Hin|item H|H|isLoading H|H];
    try congruence.
  destruct p as [c m cl log nx fl ap]. simpl in Hm. subst m.
  rewrite settled_unmounted. simpl. repeat split.
  exists src, outcome. split; [exact Hin|].
  rewrite settled_unmounted. reflexivity.
Qed.

Lemma torn_down_reachable : reachable torn_down.
Proof.
  apply (reachable_step uploaded); [exact uploaded_reachable|].
  apply step_unmount. reflexivity.
Qed.

Lemma after_teardown_witness :
  cells (identification_settled source0 (Return [lit "shirt"]) torn_down)
  = cells torn_down.
Proof.
  destruct (after_teardown torn_down
              (identification_settled source0 (Return [lit "shirt"]) torn_down)
              torn_down_reachable eq_refl) as (H & _).
  - apply step_settled. left. reflexivity.
  - exact H.
Defined.

(** The URL store is used in order: the handles created are 0, 1, 2, ...
    one per upload, each created once, and a handle is only ever revoked
    after it was created. *)
Theorem url_log_discipline (p : Panel) :
  reachable p ->
  created (url_log p) = seq 0 (next_url p)
  /\ NoDup (created (url_log p))
  /\ revoked_after_created (url_log p)
  /\ forall u, 0 < revocations u p -> allocated u p.
Proof.
  intros Hr. pose proof (reachable_Shape p Hr) as HS.
  pose proof (reachable_Inv p Hr) as HI.
  split; [apply (shape_created _ HS)|].
  split; [rewrite (shape_created _ HS); apply seq_NoDup|].
  split; [apply (shape_order _ HS)|].
  intros u Hu. unfold allocated.
  apply (seq_created _ (next_url p)); [apply (shape_created _ HS)|].
  destruct (Nat.lt_ge_cases u (next_url p)) as [H|H]; [exact H|].
  rewrite (inv_fresh _ HI u H) in Hu. lia.
Qed.

Lemma url_log_discipline_witness :
  created (url_log failed_upload) = [0]
  /\ revoked_after_created (url_log failed_upload).
Proof.
  destruct (url_log_discipline failed_upload failed_upload_reachable)
    as (H1 & _ & H2 & _).
  split; [exact H1 | exact H2].
Defined.

(** *** Dropping files on the uploader *)

(** A drop on the uploader always clears the highlight.  With no file it
    changes nothing else; with files it starts the identification of the
    first one, as a choice in the file dialog does.  Either way the
    result is a state of an execution. *)
Theorem drop_clears_highlight (p : Panel) (files : option (list File)) :
  reachable p -> mounted p = true -> uploader_shown p = true ->
  isDraggingOver (cells (onDrop files p)) = false
  /\ reachable (onDrop files p)
  /\ match files with
     | None | Some [] =>
         onDrop files p = render (setIsDraggingOver false p)
         /\ in_flight (onDrop files p) = in_flight p
         /\ url_log (onDrop files p) = url_log p
     | Some (f :: _) =>
         onDrop files p
         = onChange files (render (setIsDraggingOver false p))
         /\ clothingSource (cells (onDrop files p))
            = Some {| file := f; url := next_url p |}
     end.
Proof.
  intros Hr Hm Hu.
  pose proof (inv_cleanup _ (reachable_Inv p Hr) Hm) as Hc.
  assert (Hdrag : reachable (render (setIsDraggingOver false p))).
  { apply (reachable_step p); [exact Hr|]. apply step_drag; assumption. }
  destruct p as [[cs ii si idf er dr] m cl log nx fl ap].
  unfold uploader_shown, has_source in Hu. simpl in *. subst m cl.
  destruct cs; [discriminate|]. destruct idf; [discriminate|].
  assert (Er : render
                 (setIsDraggingOver false
                    {| cells := {| clothingSource := None;
                                   identifiedItems := ii;
                                   selectedItems := si;
                                   isIdentifying := false; error := er;
                                   isDraggingOver := dr |};
                       mounted := true; cleanup_source := None;
                       url_log := log; next_url := nx; in_flight := fl;
                       applied := ap |})
               = {| cells := {| clothingSource := None;
                                identifiedItems := ii;
                                selectedItems := si;
                                isIdentifying := false; error := er;
                                isDraggingOver := false |};
                    mounted := true; cleanup_source := None;
                    url_log := log; next_url := nx; in_flight := fl;
                    applied := ap |}) by reflexivity.
  destruct files as [[|f fs]|].
  - simpl onDrop. rewrite Er in *. repeat split. exact Hdrag.
  - assert (E : onDrop (Some (f :: fs))
                  {| cells := {| clothingSource := None;
                                 identifiedItems := ii;
                                 selectedItems := si;
                                 isIdentifying := false; error := er;
                                 isDraggingOver := dr |};
                     mounted := true; cleanup_source := None;
                     url_log := log; next_url := nx; in_flight := fl;
                     applied := ap |}
                = handleFileSelect (Some (f :: fs))
                    {| cells := {| clothingSource := None;
                                   identifiedItems := ii;
                                   selectedItems := si;
                                   isIdentifying := false; error := er;
                                   isDraggingOver := false |};
                       mounted := true; cleanup_source := None;
                       url_log := log; next_url := nx; in_flight := fl;
                       applied := ap |}) by reflexivity.
    rewrite E. rewrite Er in *. unfold onChange. repeat split.
    apply (reachable_step _ _ Hdrag). apply step_select; reflexivity.
  - simpl onDrop. rewrite Er in *. repeat split. exact Hdrag.
Qed.

Lemma drop_clears_highlight_witness :
  isDraggingOver (cells (onDrop (Some [FileObj 7]) (onDragOver initial)))
  = false.
Proof.
  destruct (drop_clears_highlight (onDragOver initial) (Some [FileObj 7]))
    as (H & _).
  - apply (reachable_step initial); [apply reachable_initial|].
    apply step_drag; reflexivity.
  - reflexivity.
  - reflexivity.
  - exact H.
Defined.

End PanelExtra.
